(** * Ghostty-header.h: the bridging header of CodMate, and the
      preprocessor mechanisms it relies on.

    The repository's only source file is an Objective-C/C bridging header.
    Its observable behaviour is what a C preprocessor does with its eighteen
    lines: an include guard on [Ghostty_header_h] around one [#import] of
    the vendored header [ghostty/Vendor/include/ghostty.h].

    The development has three layers:
    - the text of the file, line by line, and a line lexer that classifies
      each line as a comment, a blank line, a directive or program text;
    - a small preprocessor (macro table, once-only set, conditional stack,
      nested inclusion with the usual depth limit) that runs over the
      lexed lines;
    - the properties of the header, stated on those two.

    The header is read from its text.  The files around it (the vendored
    headers, the translation units that include the header) are not part
    of the repository: concrete runs use small sample files, and general
    statements range over such files as lists of directives. *)

From Stdlib Require Import String Ascii List Bool Arith Lia.
From stdpp Require Import base decidable option list gmap strings.

Local Open Scope string_scope.
Local Open Scope list_scope.

(* ------------------------------------------------------------------ *)
(** ** The file                                                         *)
(* ------------------------------------------------------------------ *)

Module Source.

(** The two characters that cannot be written inside a literal here. *)
Definition LF : ascii := "010"%char.
Definition DQUOTE : ascii := "034"%char.

Definition quoted (s : string) : string :=
  String DQUOTE (s +:+ String DQUOTE EmptyString).

(** The guard macro and the paths the file names. *)
Definition Ghostty_header_h : string := "Ghostty_header_h".
Definition ghostty_h : string := "ghostty/Vendor/include/ghostty.h".
Definition ghostty_vt_h : string := "ghostty/vt.h".

(** The name under which a translation unit includes this file. *)
Definition Ghostty_header_path : string := "Ghostty-header.h".

(** src/Ghostty-header.h, lines 1 to 18. *)
Definition Ghostty_header_lines : list string :=
  [ "//"
  ; "//  Ghostty-header.h"
  ; "//  CodMate"
  ; "//"
  ; "//  Bridging header to expose Ghostty C API to Swift"
  ; "//"
  ; ""
  ; "#ifndef Ghostty_header_h"
  ; "#define Ghostty_header_h"
  ; ""
  ; "// Import the main Ghostty C API"
  ; "// Note: ghostty.h already includes all necessary definitions"
  ; "// Do NOT include ghostty/vt.h as it causes duplicate enum definitions"
  ; "// NOTE: This file is excluded from Package.swift and may not be in use."
  ; "// The correct path is now ghostty/Vendor/include/ghostty.h"
  ; "#import " +:+ quoted "ghostty/Vendor/include/ghostty.h"
  ; ""
  ; "#endif /* Ghostty_header_h */" ].

(** The file as stored: the lines joined by line feeds; the last line is
    not terminated. *)
Definition Ghostty_header_text : string :=
  String.concat (String LF EmptyString) Ghostty_header_lines.

End Source.

(* ------------------------------------------------------------------ *)
(** ** Lexing a file into lines and lines into directives               *)
(* ------------------------------------------------------------------ *)

Module Lexer.
Import Source.

(** Cut a text at its line feeds.  A text without a final line feed ends
    in an unterminated last line, which still counts as a line. *)
Fixpoint split_lines (s : string) : list string :=
  match s with
  | EmptyString => [EmptyString]
  | String c s' =>
      if Ascii.eqb c LF then EmptyString :: split_lines s'
      else match split_lines s' with
           | [] => [String c EmptyString]
           | l :: ls => String c l :: ls
           end
  end.

Fixpoint count_char (c : ascii) (s : string) : nat :=
  match s with
  | EmptyString => 0
  | String d s' => (if Ascii.eqb c d then 1 else 0) + count_char c s'
  end.

(** What the preprocessor reads a line as.  The subset covers what the
    header uses and what is needed to talk about files around it.  A
    directive outside the subset ([#if], [#elif], [#pragma], [#error],
    ...) is a [DBad]: the preprocessor below stops at one rather than
    guess what it does.

    A [DText l] is a line the preprocessor has classified as program
    text; a line it reads as a directive is that directive, however the
    line is written (behind a comment, with [%:], spliced from several
    lines). *)
Inductive directive : Type :=
  | DComment (text : string)           (* a line holding only a // comment *)
  | DBlank                             (* an empty or all-blank line *)
  | DIfndef (m : string)
  | DIfdef (m : string)
  | DElse
  | DEndif
  | DDefine (m body : string)
  | DUndef (m : string)
  | DInclude (path : string)
  | DImport (path : string)
  | DBad (line : string)               (* a directive outside the subset *)
  | DText (line : string).             (* anything else: program text *)

Global Instance directive_eq_dec : EqDecision directive.
Proof. solve_decision. Defined.

Definition is_blank_char (c : ascii) : bool :=
  Ascii.eqb c " "%char || Ascii.eqb c "009"%char.

Fixpoint skip_blanks (s : string) : string :=
  match s with
  | String c s' => if is_blank_char c then skip_blanks s' else s
  | EmptyString => EmptyString
  end.

Definition is_ident_char (c : ascii) : bool :=
  let n := nat_of_ascii c in
  (Nat.leb 65 n && Nat.leb n 90) || (Nat.leb 97 n && Nat.leb n 122)
  || (Nat.leb 48 n && Nat.leb n 57) || Nat.eqb n 95.

(** The longest identifier prefix of [s], and what follows it. *)
Fixpoint take_ident (s : string) : string * string :=
  match s with
  | String c s' =>
      if is_ident_char c
      then let '(i, r) := take_ident s' in (String c i, r)
      else (EmptyString, s)
  | EmptyString => (EmptyString, EmptyString)
  end.

(** The text before the first [stop], and what follows that [stop]. *)
Fixpoint take_until (stop : ascii) (s : string) : option (string * string) :=
  match s with
  | EmptyString => None
  | String c s' =>
      if Ascii.eqb c stop then Some (EmptyString, s')
      else match take_until stop s' with
           | Some (a, r) => Some (String c a, r)
           | None => None
           end
  end.

Definition starts_comment (s : string) : bool :=
  match s with
  | String c _ => Ascii.eqb c "/"%char || Ascii.eqb c "*"%char
  | EmptyString => false
  end.

(** Drop a trailing comment: everything from the first [//] or [/*] on.
    (A block comment is taken to run to the end of its line.) *)
Fixpoint strip_comment (s : string) : string :=
  match s with
  | EmptyString => EmptyString
  | String c s' =>
      if Ascii.eqb c "/"%char && starts_comment s' then EmptyString
      else String c (strip_comment s')
  end.

Fixpoint rtrim (s : string) : string :=
  match s with
  | EmptyString => EmptyString
  | String c s' =>
      match rtrim s' with
      | EmptyString => if is_blank_char c then EmptyString else String c EmptyString
      | r => String c r
      end
  end.

(** The operand of [#include] and [#import]: a path between double quotes
    or between angle brackets. *)
Definition take_path (s : string) : option string :=
  match skip_blanks s with
  | String c s' =>
      if Ascii.eqb c DQUOTE then fst <$> take_until DQUOTE s'
      else if Ascii.eqb c "<"%char then fst <$> take_until ">"%char s'
      else None
  | EmptyString => None
  end.

(** A [#] line: the directive name, then its operand.  A name outside
    the subset gives [DBad]. *)
Definition parse_hash (line after_hash : string) : directive :=
  let '(name, rest) := take_ident (skip_blanks after_hash) in
  let operand := skip_blanks rest in
  if String.eqb name "ifndef" then
    match take_ident operand with
    | (EmptyString, _) => DBad line
    | (m, _) => DIfndef m
    end
  else if String.eqb name "ifdef" then
    match take_ident operand with
    | (EmptyString, _) => DBad line
    | (m, _) => DIfdef m
    end
  else if String.eqb name "else" then DElse
  else if String.eqb name "endif" then DEndif
  else if String.eqb name "define" then
    match take_ident operand with
    | (EmptyString, _) => DBad line
    | (m, body) => DDefine m (rtrim (strip_comment (skip_blanks body)))
    end
  else if String.eqb name "undef" then
    match take_ident operand with
    | (EmptyString, _) => DBad line
    | (m, _) => DUndef m
    end
  else if String.eqb name "include" then
    match take_path operand with
    | Some p => DInclude p
    | None => DBad line
    end
  else if String.eqb name "import" then
    match take_path operand with
    | Some p => DImport p
    | None => DBad line
    end
  else DBad line.

(** The line lexer.  It is written for the header's own eighteen lines,
    where [#] or [//] is the first character that is not a space or a
    tab.  It does not remove a comment or splice a continued line before
    it looks for the [#], and knows neither [%:] nor form feeds: it reads
    this header, and sample files written the same plain way, as the
    preprocessor does.  Where a statement depends on what the directives
    of another file are, the files are given as the directives the
    preprocessor reads in them ([directive_tree] below), not as text. *)
Definition parse_line (line : string) : directive :=
  match skip_blanks line with
  | EmptyString => DBlank
  | String c rest =>
      if Ascii.eqb c "#"%char then parse_hash line rest
      else if Ascii.eqb c "/"%char
      then match rest with
           | String d text =>
               if Ascii.eqb d "/"%char then DComment text else DText line
           | EmptyString => DText line
           end
      else DText line
  end.

Definition parse_file (lines : list string) : list directive :=
  map parse_line lines.

End Lexer.

(* ------------------------------------------------------------------ *)
(** ** The preprocessor                                                 *)
(* ------------------------------------------------------------------ *)

Module Cpp.
Import Source Lexer.

(** What preprocessing leaves behind, in order: a file was entered, a
    macro was defined or undefined, a line of program text was passed
    on.  [EvDecl l] records that the source line [l] survived inclusion
    and conditionals and goes on to macro expansion and the compiler
    proper; the expansion of macros within [l] is not modelled, so [l]
    is the line as written, not the tokens the compiler ends up with. *)
Inductive event : Type :=
  | EvEnter (path : string)
  | EvDefine (m body : string)
  | EvUndef (m : string)
  | EvDecl (line : string).

Global Instance event_eq_dec : EqDecision event.
Proof. solve_decision. Defined.

(** The preprocessor's state within one translation unit: the macro
    table, the files marked once-only (by [#import]), and the trace. *)
Record pp_state : Type := PPState {
  macros : gmap string string;
  once : gset string;
  log : list event
}.

Inductive pp_error : Type :=
  | FileNotFound (path : string)
  | IncludeTooDeep
  | ElseWithoutIf
  | EndifWithoutIf
  | UnterminatedConditional
  | InvalidDirective (line : string).

Inductive result : Type :=
  | Ok (st : pp_state)
  | Err (e : pp_error).

Definition defined (m : string) (st : pp_state) : bool :=
  match macros st !! m with Some _ => true | None => false end.

Definition define (m body : string) (st : pp_state) : pp_state :=
  {| macros := <[m := body]> (macros st);
     once := once st;
     log := log st ++ [EvDefine m body] |}.

Definition undef (m : string) (st : pp_state) : pp_state :=
  {| macros := delete m (macros st);
     once := once st;
     log := log st ++ [EvUndef m] |}.

Definition was_entered (p : string) (st : pp_state) : bool :=
  bool_decide (EvEnter p ∈ log st).

Definition is_once (p : string) (st : pp_state) : bool :=
  bool_decide (p ∈ once st).

Definition mark_once (p : string) (st : pp_state) : pp_state :=
  {| macros := macros st; once := {[p]} ∪ once st; log := log st |}.

Definition enter (p : string) (st : pp_state) : pp_state :=
  {| macros := macros st; once := once st; log := log st ++ [EvEnter p] |}.

Definition emit (line : string) (st : pp_state) : pp_state :=
  {| macros := macros st; once := once st; log := log st ++ [EvDecl line] |}.

(** The conditional stack holds, innermost first, whether each open
    [#if] group is being read; a group inside a skipped one is skipped. *)
Definition active (conds : list bool) : bool :=
  match conds with
  | [] => true
  | b :: _ => b
  end.

(** One file's lines.  [expand st p] is what entering the file [p] from
    state [st] results in; it is supplied by [pp_file] below.

    - [#include p] enters [p] unless [p] has been marked once-only;
    - [#import p] marks [p] once-only and enters it unless it has been
      entered before, by either directive;
    - in a skipped group only the conditional directives are looked at;
    - a directive outside the subset stops the run wherever it stands
      (it might open or close a conditional group). *)
Fixpoint pp_lines (expand : pp_state -> string -> result)
    (conds : list bool) (st : pp_state) (ds : list directive) : result :=
  match ds with
  | [] =>
      match conds with
      | [] => Ok st
      | _ :: _ => Err UnterminatedConditional
      end
  | d :: ds' =>
      match d with
      | DIfndef m =>
          pp_lines expand ((active conds && negb (defined m st)) :: conds) st ds'
      | DIfdef m =>
          pp_lines expand ((active conds && defined m st) :: conds) st ds'
      | DElse =>
          match conds with
          | [] => Err ElseWithoutIf
          | b :: outer => pp_lines expand ((active outer && negb b) :: outer) st ds'
          end
      | DEndif =>
          match conds with
          | [] => Err EndifWithoutIf
          | _ :: outer => pp_lines expand outer st ds'
          end
      | DComment _ | DBlank => pp_lines expand conds st ds'
      | DDefine m body =>
          if active conds then pp_lines expand conds (define m body st) ds'
          else pp_lines expand conds st ds'
      | DUndef m =>
          if active conds then pp_lines expand conds (undef m st) ds'
          else pp_lines expand conds st ds'
      | DText line =>
          if active conds then pp_lines expand conds (emit line st) ds'
          else pp_lines expand conds st ds'
      | DBad line => Err (InvalidDirective line)
      | DInclude p =>
          if active conds then
            if is_once p st then pp_lines expand conds st ds'
            else match expand (enter p st) p with
                 | Ok st' => pp_lines expand conds st' ds'
                 | Err e => Err e
                 end
          else pp_lines expand conds st ds'
      | DImport p =>
          if active conds then
            if was_entered p st then pp_lines expand conds (mark_once p st) ds'
            else match expand (enter p (mark_once p st)) p with
                 | Ok st' => pp_lines expand conds st' ds'
                 | Err e => Err e
                 end
          else pp_lines expand conds st ds'
      end
  end.

(** The files a translation unit can reach, by the path written in the
    directive (search directories are not modelled: a path is its own
    key). *)
Abbreviation file_tree := (gmap string (list string)).

(** Look [p] up in the tree and read it with [read]. *)
Definition open_file (read : pp_state -> list string -> result)
    (tree : file_tree) (st : pp_state) (p : string) : result :=
  match tree !! p with
  | None => Err (FileNotFound p)
  | Some lines => read st lines
  end.

(** Preprocess a file; [depth] bounds the nesting of inclusions, as
    compilers do.  Each file starts with an empty conditional stack: a
    conditional may not span files. *)
Fixpoint pp_file (depth : nat) (tree : file_tree)
    (st : pp_state) (lines : list string) : result :=
  match depth with
  | 0 => Err IncludeTooDeep
  | S d => pp_lines (open_file (pp_file d tree) tree) [] st (parse_file lines)
  end.

(** The same over files given as the preprocessor reads them: a tree
    that holds, for each path, the directives of that file.  Statements
    that range over files other than this header are made on such trees,
    so that they speak of what a file's directives are and not of one way
    of writing them down. *)
Abbreviation directive_tree := (gmap string (list directive)).

Definition open_directives (read : pp_state -> list directive -> result)
    (tree : directive_tree) (st : pp_state) (p : string) : result :=
  match tree !! p with
  | None => Err (FileNotFound p)
  | Some ds => read st ds
  end.

Fixpoint pp_tree (depth : nat) (tree : directive_tree)
    (st : pp_state) (ds : list directive) : result :=
  match depth with
  | 0 => Err IncludeTooDeep
  | S d => pp_lines (open_directives (pp_tree d tree) tree) [] st ds
  end.

(** The nesting limit of the usual compilers. *)
Definition max_include_depth : nat := 200.

(** A translation unit starts with the macros of the build configuration
    ([-D] options), no file entered and nothing marked. *)
Definition initial (predefined : gmap string string) : pp_state :=
  {| macros := predefined; once := ∅; log := [] |}.

Definition preprocess (tree : file_tree) (predefined : gmap string string)
    (unit_lines : list string) : result :=
  pp_file (S max_include_depth) tree (initial predefined) unit_lines.

Definition preprocess_directives (tree : directive_tree)
    (predefined : gmap string string) (unit_ds : list directive) : result :=
  pp_tree (S max_include_depth) tree (initial predefined) unit_ds.

(** *** Observations on a state *)

(** How many times [p] was entered. *)
Definition entries (p : string) (st : pp_state) : nat :=
  count_occ event_eq_dec (log st) (EvEnter p).

(** The lines of program text passed on, in order, as written. *)
Definition decl_of (e : event) : option string :=
  match e with EvDecl l => Some l | _ => None end.

Definition decls (st : pp_state) : list string := omap decl_of (log st).

(** The two headers of the vendored library between which a build has to
    choose, and which of them a translation unit has entered. *)
Definition candidates : list string := [ghostty_h; ghostty_vt_h].

Definition candidates_included (st : pp_state) : list string :=
  List.filter (fun p => was_entered p st) candidates.

End Cpp.
Import Source Lexer Cpp.

(* ------------------------------------------------------------------ *)
(** ** The header as a list of directives                               *)
(* ------------------------------------------------------------------ *)

Definition Ghostty_header_directives : list directive :=
  parse_file Ghostty_header_lines.

Definition is_trivia (d : directive) : bool :=
  match d with DComment _ | DBlank => true | _ => false end.

Definition is_inclusion (d : directive) : bool :=
  match d with DInclude _ | DImport _ => true | _ => false end.

Definition is_text (d : directive) : bool :=
  match d with DText _ => true | _ => false end.

Definition is_macro_change (d : directive) : bool :=
  match d with DDefine _ _ | DUndef _ => true | _ => false end.

(** Line [n] of the file, counted from 1 as editors do. *)
Definition line_at (n : nat) : option string :=
  match n with
  | 0 => None
  | S i => Ghostty_header_lines !! i
  end.

Definition directive_at (n : nat) : option directive :=
  parse_line <$> line_at n.

(** The state in which the vendored header is entered from this file:
    the guard defined, the vendored header marked once-only and entered. *)
Definition guarded_entry (st : pp_state) : pp_state :=
  enter ghostty_h (mark_once ghostty_h (define Ghostty_header_h "" st)).

(* ------------------------------------------------------------------ *)
(** ** Vocabulary for files and states                                  *)
(* ------------------------------------------------------------------ *)

(** A line that neither opens or closes a conditional nor enters a file
    nor lies outside the subset, and what such a line does to the state. *)
Definition passive (d : directive) : bool :=
  match d with
  | DText _ | DComment _ | DBlank | DDefine _ _ | DUndef _ => true
  | _ => false
  end.

Definition passive_step (st : pp_state) (d : directive) : pp_state :=
  match d with
  | DDefine m b => define m b st
  | DUndef m => undef m st
  | DText l => emit l st
  | _ => st
  end.

(** The program text among a file's directives, in order. *)
Definition text_of (d : directive) : option string :=
  match d with DText l => Some l | _ => None end.

Definition program_text (ds : list directive) : list string := omap text_of ds.

(** Passing a whole list of lines on. *)
Definition emit_all (ls : list string) (st : pp_state) : pp_state :=
  {| macros := macros st; once := once st; log := log st ++ map EvDecl ls |}.

(** [p] has been entered and is marked once-only, and has been entered
    [k] times so far. *)
Definition sealed (p : string) (k : nat) (st : pp_state) : Prop :=
  was_entered p st = true /\ is_once p st = true /\ entries p st = k.

(** Whether a directive includes or imports the file [p]. *)
Definition names (p : string) (d : directive) : bool :=
  match d with
  | DInclude q | DImport q => String.eqb q p
  | _ => false
  end.

(** No file of the tree includes or imports [p]. *)
Definition never_names (p : string) (tree : directive_tree) : Prop :=
  map_Forall (fun _ ds => Forall (fun d => names p d = false) ds) tree.

(** The files of the tree that the unit has entered by the time it has
    reached [st]. *)
Definition entered_files (st : pp_state) (tree : directive_tree)
    : directive_tree :=
  filter (fun kv => was_entered kv.1 st = true) tree.

(** If the lower-level header has been entered, then some file that has
    been entered names it in an inclusion directive. *)
Definition vt_accounted_for (tree : directive_tree) (st : pp_state) : Prop :=
  was_entered ghostty_vt_h st = true ->
  exists p ds,
    was_entered p st = true /\ tree !! p = Some ds
    /\ Exists (fun d => names ghostty_vt_h d = true) ds.

(** Whether a directive defines or undefines the macro [m]. *)
Definition touches (m : string) (d : directive) : bool :=
  match d with
  | DDefine m' _ | DUndef m' => String.eqb m' m
  | _ => false
  end.

(** A file none of whose directives defines or undefines the header's
    guard. *)
Definition leaves_guard_alone (ds : list directive) : Prop :=
  Forall (fun d => touches Ghostty_header_h d = false) ds.

Global Instance leaves_guard_alone_dec ds : Decision (leaves_guard_alone ds).
Proof. unfold leaves_guard_alone. apply _. Defined.

(** A tree in which every file is this header or leaves its guard alone. *)
Definition respects_guard (tree : directive_tree) : Prop :=
  map_Forall
    (fun _ ds => ds = Ghostty_header_directives \/ leaves_guard_alone ds) tree.

(** The unit has entered (a file that is) this header. *)
Definition header_entered (tree : directive_tree) (st : pp_state) : Prop :=
  exists p,
    tree !! p = Some Ghostty_header_directives /\ was_entered p st = true.

(** How many times the guarded lines of the header have been read: each
    reading executes its [#define]. *)
Definition guard_expansions (st : pp_state) : nat :=
  count_occ event_eq_dec (log st) (EvDefine Ghostty_header_h "").

(** The guard is defined exactly when the guarded lines have been read,
    and then they have been read once; and the guard is defined as soon
    as the header has been entered and read. *)
Definition guard_inv (tree : directive_tree) (st : pp_state) : Prop :=
  guard_expansions st = (if defined Ghostty_header_h st then 1 else 0)
  /\ (header_entered tree st -> defined Ghostty_header_h st = true).

(** A directive of a vendored header that is passive or includes this
    header back, by either directive. *)
Definition passive_or_back (d : directive) : Prop :=
  passive d = true
  \/ d = DInclude Ghostty_header_path
  \/ d = DImport Ghostty_header_path.

Global Instance passive_or_back_dec d : Decision (passive_or_back d).
Proof. unfold passive_or_back. apply _. Defined.

(** A directive after which the guard, if it was defined with an empty
    body, still is. *)
Definition guard_safe (d : directive) : Prop :=
  match d with
  | DUndef m => m <> Ghostty_header_h
  | DDefine m b => m = Ghostty_header_h -> b = ""
  | _ => True
  end.

(* ------------------------------------------------------------------ *)
(** ** Translation units                                                *)
(* ------------------------------------------------------------------ *)

Definition include_line (p : string) : string := "#include " +:+ quoted p.
Definition import_line (p : string) : string := "#import " +:+ quoted p.

(** A unit that includes the header [n] times in a row. *)
Definition unit_including (n : nat) : list string :=
  repeat (include_line Ghostty_header_path) n.

(** [st] after [p] has been opened [k] more times without any effect
    other than the opening itself. *)
Definition reopened (p : string) (k : nat) (st : pp_state) : pp_state :=
  {| macros := macros st; once := once st;
     log := log st ++ repeat (EvEnter p) k |}.

(** A unit that imports this header and then the lower-level header. *)
Definition unit_with_both : list string :=
  [ import_line Ghostty_header_path; import_line ghostty_vt_h ].

(** A unit that includes the header, undefines its guard and includes
    the header again. *)
Definition unit_with_undef : list string :=
  [ include_line Ghostty_header_path
  ; "#undef Ghostty_header_h"
  ; include_line Ghostty_header_path ].

(** A unit that defines the guard itself before it includes the header. *)
Definition unit_defining : list string :=
  [ "#define Ghostty_header_h 1"
  ; include_line Ghostty_header_path ].

(** A unit that has included the vendored header twice before it
    includes this header; and one that includes it twice afterwards. *)
Definition unit_twice_before : list string :=
  [ include_line ghostty_h
  ; include_line ghostty_h
  ; include_line Ghostty_header_path ].

Definition unit_twice_after : list string :=
  [ include_line Ghostty_header_path
  ; include_line ghostty_h
  ; include_line ghostty_h ].

(** The header with [#include] in place of [#import] on line 16, for
    contrast. *)
Definition with_include_instead : list string :=
  <[15 := include_line ghostty_h]> Ghostty_header_lines.

(* ------------------------------------------------------------------ *)
(** ** Concrete file trees to run the theorems on                       *)
(* ------------------------------------------------------------------ *)

(** Test data.  The vendored headers are not among this repository's
    sources; these two stand in for them wherever a theorem is run on a
    concrete input: two headers made of definitions that share one, the
    situation the header's comment warns about. *)
Definition sample_ghostty_h : list string :=
  [ "enum sample_color { SAMPLE_RED, SAMPLE_BLUE };"
  ; "enum sample_mode { SAMPLE_ON, SAMPLE_OFF };" ].

Definition sample_vt_h : list string :=
  [ "enum sample_mode { SAMPLE_ON, SAMPLE_OFF };" ].

Definition sample_tree : file_tree :=
  <[Ghostty_header_path := Ghostty_header_lines]>
    (<[ghostty_h := sample_ghostty_h]>
       (<[ghostty_vt_h := sample_vt_h]> ∅)).

(** The same tree as the preprocessor reads it. *)
Definition sample_directives : directive_tree := parse_file <$> sample_tree.

(** The state after the header itself has been preprocessed as the unit. *)
Definition sample_once : pp_state :=
  {| macros := {[Ghostty_header_h := ""]};
     once := {[ghostty_h]};
     log := [ EvDefine Ghostty_header_h ""; EvEnter ghostty_h ]
            ++ map EvDecl sample_ghostty_h |}.

(** What a unit goes on to read after the header: the guard is undefined,
    the header included again, the vendored header included directly. *)
Definition sample_rest : list string :=
  [ "#undef Ghostty_header_h"
  ; include_line Ghostty_header_path
  ; include_line ghostty_h ].

(** ... and the state after that. *)
Definition sample_again : pp_state :=
  {| macros := {[Ghostty_header_h := ""]};
     once := {[ghostty_h]};
     log := log sample_once
            ++ [ EvUndef Ghostty_header_h
               ; EvEnter Ghostty_header_path
               ; EvDefine Ghostty_header_h "" ] |}.

(** A unit that includes the header twice and then imports it, with a
    declaration of its own in between. *)
Definition sample_unit : list directive :=
  [ DInclude Ghostty_header_path
  ; DText "static int between;"
  ; DInclude Ghostty_header_path
  ; DImport Ghostty_header_path ].

(** The state after a unit has included the header once. *)
Definition sample_included : pp_state :=
  {| macros := {[Ghostty_header_h := ""]};
     once := {[ghostty_h]};
     log := [ EvEnter Ghostty_header_path
            ; EvDefine Ghostty_header_h ""
            ; EvEnter ghostty_h ] ++ map EvDecl sample_ghostty_h |}.

(** The state after [unit_with_both]. *)
Definition sample_both : pp_state :=
  {| macros := {[Ghostty_header_h := ""]};
     once := {[Ghostty_header_path; ghostty_h; ghostty_vt_h]};
     log := [ EvEnter Ghostty_header_path
            ; EvDefine Ghostty_header_h ""
            ; EvEnter ghostty_h ]
            ++ map EvDecl sample_ghostty_h
            ++ [ EvEnter ghostty_vt_h ]
            ++ map EvDecl sample_vt_h |}.

(** Test data: the sample tree with a vendored header that itself
    includes the lower-level header, and the state after this header has
    been preprocessed in it. *)
Definition sample_tree_reaching_vt : file_tree :=
  <[ghostty_h := [ include_line ghostty_vt_h ]]> sample_tree.

Definition sample_reached_vt : pp_state :=
  {| macros := {[Ghostty_header_h := ""]};
     once := {[ghostty_h]};
     log := [ EvDefine Ghostty_header_h ""
            ; EvEnter ghostty_h
            ; EvEnter ghostty_vt_h ] ++ map EvDecl sample_vt_h |}.

(** Test data: a vendored header with a guard of its own that includes a
    further file, as vendored headers usually do. *)
Definition sample_types_h : string := "ghostty/types.h".

Definition sample_wrapped : directive_tree :=
  <[Ghostty_header_path := Ghostty_header_directives]>
    (<[ghostty_h :=
         [ DIfndef "GHOSTTY_H"
         ; DDefine "GHOSTTY_H" ""
         ; DInclude sample_types_h
         ; DText "enum sample_mode { SAMPLE_ON, SAMPLE_OFF };"
         ; DEndif ]]>
       (<[sample_types_h := [ DText "typedef int sample_int;" ]]>
          (<[ghostty_vt_h := parse_file sample_vt_h]> ∅))).

(** Test data: a vendored header that undefines this header's guard. *)
Definition sample_tree_undefining : file_tree :=
  <[ghostty_h := [ "#undef Ghostty_header_h" ]]> sample_tree.

(** Test data: a vendored header that includes this header back, twice,
    and undefines its guard in between; and the tree around it. *)
Definition sample_cyclic_h : list directive :=
  [ DText "enum sample_color { SAMPLE_RED, SAMPLE_BLUE };"
  ; DInclude Ghostty_header_path
  ; DUndef Ghostty_header_h
  ; DImport Ghostty_header_path
  ; DText "enum sample_mode { SAMPLE_ON, SAMPLE_OFF };" ].

Definition sample_cyclic_tree : directive_tree :=
  <[Ghostty_header_path := Ghostty_header_directives]>
    (<[ghostty_h := sample_cyclic_h]> ∅).

(** Test data: a header that includes the vendored header with neither
    guard nor [#import], for contrast, in the same kind of circle. *)
Definition unguarded_variant : list directive := [ DInclude ghostty_h ].

Definition sample_unguarded_tree : directive_tree :=
  <[Ghostty_header_path := unguarded_variant]>
    (<[ghostty_h := [ DInclude Ghostty_header_path ]]> ∅).

(** Test data: the sample tree with the vendored header missing. *)
Definition sample_without_vendored : directive_tree :=
  delete ghostty_h sample_directives.

(* ------------------------------------------------------------------ *)
(** ** The duplicate-definition hazard: the model                       *)
(* ------------------------------------------------------------------ *)



(** Modelled from the spec: a vendored header as the list of its
    definitions, one to a line of program text. *)
Definition definitions (ls : list string) : list directive := map DText ls.




















(* ================================================================== *)
(** * Lemmas and theorems                                               *)
(* ================================================================== *)

Arguments defined : simpl never.
Arguments define : simpl never.
Arguments undef : simpl never.
Arguments was_entered : simpl never.
Arguments is_once : simpl never.
Arguments mark_once : simpl never.
Arguments enter : simpl never.
Arguments emit : simpl never.

(* ------------------------------------------------------------------ *)
(** ** The header, lexed                                                *)
(* ------------------------------------------------------------------ *)

Lemma Ghostty_header_text_lexes :
  parse_file (split_lines Ghostty_header_text) = Ghostty_header_directives.
Proof. reflexivity. Qed.

Lemma Ghostty_header_directives_eq :
  Ghostty_header_directives =
  [ DComment ""
  ; DComment "  Ghostty-header.h"
  ; DComment "  CodMate"
  ; DComment ""
  ; DComment "  Bridging header to expose Ghostty C API to Swift"
  ; DComment ""
  ; DBlank
  ; DIfndef Ghostty_header_h
  ; DDefine Ghostty_header_h ""
  ; DBlank
  ; DComment " Import the main Ghostty C API"
  ; DComment " Note: ghostty.h already includes all necessary definitions"
  ; DComment " Do NOT include ghostty/vt.h as it causes duplicate enum definitions"
  ; DComment " NOTE: This file is excluded from Package.swift and may not be in use."
  ; DComment " The correct path is now ghostty/Vendor/include/ghostty.h"
  ; DImport ghostty_h
  ; DBlank
  ; DEndif ].
Proof. reflexivity. Qed.

(* ------------------------------------------------------------------ *)
(** ** How the state operations interact with the observations          *)
(* ------------------------------------------------------------------ *)

Section StateFacts.
Implicit Types (st : pp_state) (p m b l : string).

Lemma was_entered_define p m b st :
  was_entered p (define m b st) = was_entered p st.
Proof.
  unfold was_entered, define; simpl. apply bool_decide_ext.
  rewrite elem_of_app, list_elem_of_singleton.
  split; [intros [?|?]; [done|discriminate] | by left].
Qed.

Lemma was_entered_mark_once p q st :
  was_entered p (mark_once q st) = was_entered p st.
Proof. reflexivity. Qed.

Lemma was_entered_enter p st : was_entered p (enter p st) = true.
Proof.
  unfold was_entered, enter; simpl. apply bool_decide_eq_true.
  rewrite elem_of_app, list_elem_of_singleton. by right.
Qed.

Lemma was_entered_enter_other p q st :
  was_entered p (enter q st) = (String.eqb q p || was_entered p st).
Proof.
  unfold was_entered, enter; cbn [log].
  destruct (String.eqb_spec q p) as [->|Hne]; cbn [orb].
  - apply bool_decide_eq_true, elem_of_app. right. by apply list_elem_of_singleton.
  - apply bool_decide_ext. rewrite elem_of_app, list_elem_of_singleton.
    split; [intros [?|[=]]; [done|congruence] | by left].
Qed.

Lemma was_entered_app p st st' es :
  log st' = log st ++ es -> was_entered p st = true -> was_entered p st' = true.
Proof.
  unfold was_entered. intros -> H%bool_decide_eq_true.
  apply bool_decide_eq_true, elem_of_app. by left.
Qed.

Lemma was_entered_silent p st st' e :
  log st' = log st ++ [e] -> (forall q, e <> EvEnter q) ->
  was_entered p st' = was_entered p st.
Proof.
  unfold was_entered. intros -> He. apply bool_decide_ext.
  rewrite elem_of_app, list_elem_of_singleton.
  split; [intros [?|?]; [done|by destruct (He p)] | by left].
Qed.

Lemma was_entered_initial p predefined :
  was_entered p (initial predefined) = false.
Proof. reflexivity. Qed.

Lemma is_once_initial p predefined : is_once p (initial predefined) = false.
Proof. apply bool_decide_eq_false. set_solver. Qed.

Lemma defined_initial m predefined :
  defined m (initial predefined)
  = match predefined !! m with Some _ => true | None => false end.
Proof. reflexivity. Qed.

Lemma defined_define m b st : defined m (define m b st) = true.
Proof. unfold defined, define; simpl. by rewrite lookup_insert_eq. Qed.

Lemma defined_define_ne m m' b st :
  m' <> m -> defined m (define m' b st) = defined m st.
Proof. intros. unfold defined, define; simpl. by rewrite lookup_insert_ne. Qed.

Lemma defined_undef_ne m m' st :
  m' <> m -> defined m (undef m' st) = defined m st.
Proof. intros. unfold defined, undef; simpl. by rewrite lookup_delete_ne. Qed.

Lemma defined_enter m p st : defined m (enter p st) = defined m st.
Proof. reflexivity. Qed.

Lemma defined_mark_once m p st : defined m (mark_once p st) = defined m st.
Proof. reflexivity. Qed.

Lemma is_once_mark_once p q st :
  is_once p st = true -> is_once p (mark_once q st) = true.
Proof.
  unfold is_once, mark_once; simpl. intros H%bool_decide_eq_true.
  apply bool_decide_eq_true. set_solver.
Qed.

Lemma is_once_mark_once_eq p st : is_once p (mark_once p st) = true.
Proof.
  unfold is_once, mark_once; simpl. apply bool_decide_eq_true. set_solver.
Qed.

Lemma is_once_mark_once_other p q st :
  is_once p (mark_once q st) = (String.eqb q p || is_once p st).
Proof.
  unfold is_once, mark_once; cbn [once].
  destruct (String.eqb_spec q p) as [->|Hne]; cbn [orb].
  - apply bool_decide_eq_true. set_solver.
  - apply bool_decide_ext. rewrite elem_of_union, elem_of_singleton.
    split; [intros [?|?]; [congruence|done] | by right].
Qed.

Lemma decls_emit l st : decls (emit l st) = decls st ++ [l].
Proof. unfold decls, emit; simpl. by rewrite omap_app. Qed.

Lemma decls_enter p st : decls (enter p st) = decls st.
Proof. unfold decls, enter; simpl. rewrite omap_app; simpl. apply app_nil_r. Qed.

Lemma decls_define m b st : decls (define m b st) = decls st.
Proof. unfold decls, define; simpl. rewrite omap_app; simpl. apply app_nil_r. Qed.

Lemma decls_undef m st : decls (undef m st) = decls st.
Proof. unfold decls, undef; simpl. rewrite omap_app; simpl. apply app_nil_r. Qed.

Lemma decls_mark_once p st : decls (mark_once p st) = decls st.
Proof. reflexivity. Qed.

Lemma entries_enter_ne p q st : q <> p -> entries p (enter q st) = entries p st.
Proof.
  intros Hne. unfold entries, enter; cbn [log]. rewrite count_occ_app.
  rewrite (count_occ_cons_neq event_eq_dec); [cbn; lia | congruence].
Qed.

Lemma entries_enter p st : entries p (enter p st) = S (entries p st).
Proof.
  unfold entries, enter; cbn [log]. rewrite count_occ_app.
  rewrite (count_occ_cons_eq event_eq_dec); [cbn; lia | done].
Qed.

Lemma entries_0 p st : was_entered p st = false -> entries p st = 0.
Proof.
  unfold was_entered, entries. intros H%bool_decide_eq_false.
  apply count_occ_not_In. by rewrite <- list_elem_of_In.
Qed.

Lemma entries_other p st st' e :
  log st' = log st ++ [e] -> e <> EvEnter p -> entries p st' = entries p st.
Proof.
  unfold entries. intros -> Hne. rewrite count_occ_app.
  rewrite (count_occ_cons_neq event_eq_dec); [cbn; lia | done].
Qed.
End StateFacts.

(* ------------------------------------------------------------------ *)
(** ** What preprocessing the header amounts to                         *)
(* ------------------------------------------------------------------ *)

(** Whatever entering a file results in, the header does one of three
    things: nothing (guard already defined), define the guard and skip
    the import (vendored header entered before), or define the guard and
    enter the vendored header. *)
Lemma pp_lines_header (expand : pp_state -> string -> result) (st : pp_state) :
  pp_lines expand [] st Ghostty_header_directives =
    if defined Ghostty_header_h st then Ok st
    else if was_entered ghostty_h st
         then Ok (mark_once ghostty_h (define Ghostty_header_h "" st))
         else expand (guarded_entry st) ghostty_h.
Proof.
  rewrite Ghostty_header_directives_eq. cbn [pp_lines active andb].
  destruct (defined Ghostty_header_h st) eqn:Hdef; cbn [negb pp_lines active]; [done|].
  rewrite was_entered_define.
  destruct (was_entered ghostty_h st); [done|].
  fold (guarded_entry st). by destruct (expand _ _).
Qed.

Lemma pp_file_header (d : nat) (tree : file_tree) (st : pp_state) :
  pp_file (S d) tree st Ghostty_header_lines =
    if defined Ghostty_header_h st then Ok st
    else if was_entered ghostty_h st
         then Ok (mark_once ghostty_h (define Ghostty_header_h "" st))
         else open_file (pp_file d tree) tree (guarded_entry st) ghostty_h.
Proof. cbn [pp_file]. apply pp_lines_header. Qed.

Lemma pp_tree_header (d : nat) (tree : directive_tree) (st : pp_state) :
  pp_tree (S d) tree st Ghostty_header_directives =
    if defined Ghostty_header_h st then Ok st
    else if was_entered ghostty_h st
         then Ok (mark_once ghostty_h (define Ghostty_header_h "" st))
         else open_directives (pp_tree d tree) tree (guarded_entry st) ghostty_h.
Proof. cbn [pp_tree]. apply pp_lines_header. Qed.

(** The header as the translation unit itself. *)
Lemma preprocess_directives_header tree predefined :
  preprocess_directives tree predefined Ghostty_header_directives
  = if defined Ghostty_header_h (initial predefined)
    then Ok (initial predefined)
    else open_directives (pp_tree max_include_depth tree) tree
           (guarded_entry (initial predefined)) ghostty_h.
Proof.
  unfold preprocess_directives. by rewrite pp_tree_header, was_entered_initial.
Qed.

(* ------------------------------------------------------------------ *)
(** ** Text trees and directive trees                                   *)
(* ------------------------------------------------------------------ *)

(** A file's lines are read through what entering a file results in,
    and through nothing else. *)
Lemma pp_lines_ext (allowed : directive -> Prop) expand expand' :
  (forall st p, allowed (DInclude p) -> expand st p = expand' st p) ->
  (forall st p, allowed (DImport p) -> expand st p = expand' st p) ->
  forall ds conds st,
    Forall allowed ds ->
    pp_lines expand conds st ds = pp_lines expand' conds st ds.
Proof.
  intros Hinc Himp. induction ds as [|d ds IH]; intros conds st Hall; [done|].
  apply Forall_cons in Hall as [Hd Hall].
  destruct d; cbn [pp_lines]; rewrite ?IH by done; try done.
  - destruct conds; [done | by apply IH].
  - destruct conds; [done | by apply IH].
  - rewrite (Hinc _ _ Hd).
    destruct (active conds), (is_once path st); try done.
    destruct (expand' _ _); [by apply IH | done].
  - rewrite (Himp _ _ Hd).
    destruct (active conds), (was_entered path st); try done.
    destruct (expand' _ _); [by apply IH | done].
Qed.

(** Preprocessing a tree of text files is preprocessing the tree of
    their directives. *)
Lemma pp_file_pp_tree (tree : file_tree) : forall d st lines,
  pp_file d tree st lines
  = pp_tree d (parse_file <$> tree) st (parse_file lines).
Proof.
  induction d as [|d IH]; intros st lines; [done|]. cbn [pp_file pp_tree].
  apply (pp_lines_ext (fun _ => True)); [| |by apply Forall_forall];
    intros s p _; unfold open_file, open_directives; rewrite lookup_fmap;
    destruct (tree !! p); cbn; done.
Qed.

Lemma preprocess_directives_parse tree predefined unit_lines :
  preprocess tree predefined unit_lines
  = preprocess_directives (parse_file <$> tree) predefined
      (parse_file unit_lines).
Proof. apply pp_file_pp_tree. Qed.

(* ------------------------------------------------------------------ *)
(** ** Files without conditionals or inclusions                         *)
(* ------------------------------------------------------------------ *)

Lemma pp_lines_passive expand (ds : list directive) : forall st,
  forallb passive ds = true ->
  pp_lines expand [] st ds = Ok (foldl passive_step st ds).
Proof.
  induction ds as [|d ds IH]; intros st Hp; [done|].
  cbn [forallb] in Hp. apply andb_true_iff in Hp as [Hd Hds].
  destruct d; try discriminate; cbn [pp_lines active foldl passive_step];
    by apply IH.
Qed.

Lemma pp_lines_passive_app expand (ds ds' : list directive) : forall st,
  forallb passive ds = true ->
  pp_lines expand [] st (ds ++ ds')
  = pp_lines expand [] (foldl passive_step st ds) ds'.
Proof.
  induction ds as [|d ds IH]; intros st Hp; [done|].
  cbn [forallb] in Hp. apply andb_true_iff in Hp as [Hd Hds].
  destruct d; try discriminate;
    cbn [app pp_lines active foldl passive_step]; by apply IH.
Qed.

Lemma was_entered_passive p (ds : list directive) : forall st,
  was_entered p (foldl passive_step st ds) = was_entered p st.
Proof.
  induction ds as [|d ds IH]; intros st; [done|].
  cbn [foldl]. rewrite IH.
  destruct d; cbn [passive_step]; try done.
  - by apply (was_entered_silent _ _ _ (EvDefine m body)).
  - by apply (was_entered_silent _ _ _ (EvUndef m)).
  - by apply (was_entered_silent _ _ _ (EvDecl line)).
Qed.

Lemma entries_passive p (ds : list directive) : forall st,
  entries p (foldl passive_step st ds) = entries p st.
Proof.
  induction ds as [|d ds IH]; intros st; [done|].
  cbn [foldl]. rewrite IH.
  destruct d; cbn [passive_step]; try done.
  - by apply (entries_other _ _ _ (EvDefine m body)).
  - by apply (entries_other _ _ _ (EvUndef m)).
  - by apply (entries_other _ _ _ (EvDecl line)).
Qed.

Lemma is_once_passive p (ds : list directive) : forall st,
  is_once p (foldl passive_step st ds) = is_once p st.
Proof.
  induction ds as [|d ds IH]; intros st; [done|].
  cbn [foldl]. rewrite IH. by destruct d.
Qed.

Lemma defined_passive m (ds : list directive) : forall st,
  Forall (fun d => touches m d = false) ds ->
  defined m (foldl passive_step st ds) = defined m st.
Proof.
  induction ds as [|d ds IH]; intros st Hall; [done|].
  apply Forall_cons in Hall as [Hd Hall]. cbn [foldl]. rewrite IH by done.
  destruct d; cbn [passive_step]; try done; cbn in Hd;
    apply String.eqb_neq in Hd.
  - by apply defined_define_ne.
  - by apply defined_undef_ne.
Qed.

Lemma decls_passive (ds : list directive) : forall st,
  decls (foldl passive_step st ds) = decls st ++ program_text ds.
Proof.
  induction ds as [|d ds IH]; intros st; [by rewrite app_nil_r|].
  cbn [foldl]. rewrite IH.
  destruct d; cbn [passive_step program_text omap text_of]; try done.
  - by rewrite decls_define.
  - by rewrite decls_undef.
  - rewrite decls_emit. by rewrite <- app_assoc.
Qed.



Lemma decls_emit_all ls st : decls (emit_all ls st) = decls st ++ ls.
Proof.
  unfold decls, emit_all; simpl. rewrite omap_app. f_equal.
  induction ls as [|l ls IH]; [done|]. cbn. by rewrite IH.
Qed.

Lemma was_entered_emit_all p ls st :
  was_entered p (emit_all ls st) = was_entered p st.
Proof.
  unfold was_entered, emit_all; simpl. apply bool_decide_ext.
  rewrite elem_of_app, list_elem_of_fmap.
  split; [intros [?|(l & ? & _)]; [done|discriminate] | by left].
Qed.

Lemma defined_emit_all m ls st : defined m (emit_all ls st) = defined m st.
Proof. reflexivity. Qed.

Lemma is_once_emit_all p ls st : is_once p (emit_all ls st) = is_once p st.
Proof. reflexivity. Qed.

(* ------------------------------------------------------------------ *)
(** ** Invariants of preprocessing                                      *)
(* ------------------------------------------------------------------ *)

(** A property of the state that every single step keeps is kept by a
    whole run, however deep the inclusions go.  [allowed] restricts the
    directives the files may contain. *)
Section Invariant.
Variable I : pp_state -> Prop.
Variable allowed : directive -> Prop.

Hypothesis I_define : forall m b st,
  allowed (DDefine m b) -> I st -> I (define m b st).
Hypothesis I_undef : forall m st,
  allowed (DUndef m) -> I st -> I (undef m st).
Hypothesis I_emit : forall l st, I st -> I (emit l st).
Hypothesis I_mark_once : forall p st,
  allowed (DImport p) -> I st -> I (mark_once p st).

(** Within one file: it is enough that entering a file restores the
    property by the time that file has been read. *)
Lemma pp_lines_invariant expand :
  (forall st p st',
     allowed (DInclude p) -> I st -> is_once p st = false ->
     expand (enter p st) p = Ok st' -> I st') ->
  (forall st p st',
     allowed (DImport p) -> I st -> was_entered p st = false ->
     expand (enter p (mark_once p st)) p = Ok st' -> I st') ->
  forall ds conds st st',
    Forall allowed ds -> I st ->
    pp_lines expand conds st ds = Ok st' -> I st'.
Proof.
  intros Hinc Himp. induction ds as [|d ds IH];
    intros conds st st' Hall Hst Hrun.
  - cbn in Hrun. destruct conds; [|discriminate]. by injection Hrun as <-.
  - apply Forall_cons in Hall as [Hd Hall].
    pose proof (fun c s => IH c s st' Hall) as IH'. clear IH.
    destruct d; cbn [pp_lines] in Hrun;
      repeat match type of Hrun with
             | (if ?b then _ else _) = _ => destruct b eqn:?
             | match conds with _ => _ end = _ => destruct conds
             | match expand ?s ?p with _ => _ end = _ =>
                 destruct (expand s p) eqn:?
             end;
      try discriminate; eauto 7.
Qed.

(** Across files, for a property that entering a file does not disturb. *)
Hypothesis I_include : forall p st,
  allowed (DInclude p) -> I st -> is_once p st = false -> I (enter p st).
Hypothesis I_import : forall p st,
  allowed (DImport p) -> I st -> was_entered p st = false ->
  I (enter p (mark_once p st)).

Lemma pp_tree_lines_invariant (tree : directive_tree) :
  map_Forall (fun _ ds => Forall allowed ds) tree ->
  forall d conds st ds st',
    Forall allowed ds -> I st ->
    pp_lines (open_directives (pp_tree d tree) tree) conds st ds = Ok st' ->
    I st'.
Proof.
  intros Htree. induction d as [|d IH]; intros conds st ds st' Hall Hst Hrun.
  - eapply pp_lines_invariant; [| |exact Hall|exact Hst|exact Hrun];
      intros s p s' _ _ _ Hopen; unfold open_directives in Hopen;
      by destruct (tree !! p).
  - eapply pp_lines_invariant; [| |exact Hall|exact Hst|exact Hrun];
      intros s p s' Hp Hs Hfresh Hopen; unfold open_directives in Hopen;
      destruct (tree !! p) as [dsp|] eqn:Hlook; try discriminate;
      cbn [pp_tree] in Hopen;
      (eapply IH; [exact (Htree p dsp Hlook)| |exact Hopen]); eauto.
Qed.

Lemma pp_tree_invariant (tree : directive_tree) :
  map_Forall (fun _ ds => Forall allowed ds) tree ->
  forall d st ds st',
    Forall allowed ds -> I st -> pp_tree d tree st ds = Ok st' -> I st'.
Proof.
  intros Htree [|d] st ds st' Hall Hst Hrun; [discriminate|].
  by eapply pp_tree_lines_invariant.
Qed.
End Invariant.

(** *** What has been entered stays entered *)

Lemma pp_lines_was_entered q tree d conds st ds st' :
  pp_lines (open_directives (pp_tree d tree) tree) conds st ds = Ok st' ->
  was_entered q st = true -> was_entered q st' = true.
Proof.
  intros Hrun Hst.
  eapply (pp_tree_lines_invariant (fun s => was_entered q s = true)
            (fun _ => True)) with (tree := tree);
    [ .. | exact Hst | exact Hrun ].
  - intros m b s _. by apply was_entered_app with (es := [EvDefine m b]).
  - intros m s _. by apply was_entered_app with (es := [EvUndef m]).
  - intros l s. by apply was_entered_app with (es := [EvDecl l]).
  - done.
  - intros p s _ Hs _. by apply was_entered_app with (st := s) (es := [EvEnter p]).
  - intros p s _ Hs _.
    by apply was_entered_app with (st := mark_once p s) (es := [EvEnter p]).
  - intros p ds' _. by apply Forall_forall.
  - by apply Forall_forall.
Qed.

Lemma pp_tree_was_entered q tree d st ds st' :
  pp_tree d tree st ds = Ok st' ->
  was_entered q st = true -> was_entered q st' = true.
Proof.
  destruct d as [|d]; [discriminate|]. apply pp_lines_was_entered.
Qed.

(** *** Once a file has been imported it is never entered again *)

Lemma pp_tree_sealed p k tree d st ds st' :
  sealed p k st -> pp_tree d tree st ds = Ok st' -> sealed p k st'.
Proof.
  intros Hst Hrun.
  eapply (pp_tree_invariant (sealed p k) (fun _ => True)) with (tree := tree);
    [ .. | exact Hst | exact Hrun ].
  - intros m b s _ (He & Ho & Hk). split_and!; [|done|].
    + by eapply was_entered_app.
    + by rewrite (entries_other p s (define m b s) (EvDefine m b)).
  - intros m s _ (He & Ho & Hk). split_and!; [|done|].
    + by eapply was_entered_app.
    + by rewrite (entries_other p s (undef m s) (EvUndef m)).
  - intros l s (He & Ho & Hk). split_and!; [|done|].
    + by eapply was_entered_app.
    + by rewrite (entries_other p s (emit l s) (EvDecl l)).
  - intros q s _ (He & Ho & Hk). split_and!; [done| |done].
    by apply is_once_mark_once.
  - intros q s _ (He & Ho & Hk) Hq.
    assert (q <> p) by (intros ->; congruence).
    split_and!; [|done|].
    + by eapply was_entered_app.
    + by rewrite entries_enter_ne.
  - intros q s _ (He & Ho & Hk) Hq.
    assert (q <> p) by (intros ->; congruence).
    split_and!.
    + eapply (was_entered_app p (mark_once q s)); [done|]. done.
    + by apply is_once_mark_once.
    + by rewrite entries_enter_ne.
  - intros q ls _. by apply Forall_forall.
  - by apply Forall_forall.
Qed.

Lemma pp_file_sealed p k tree d st lines st' :
  sealed p k st -> pp_file d tree st lines = Ok st' -> sealed p k st'.
Proof. rewrite pp_file_pp_tree. apply pp_tree_sealed. Qed.

(** *** A run reads only the files it enters *)

Lemma pp_lines_entered_only tree (st_end : pp_state) : forall d ds conds st st',
  pp_lines (open_directives (pp_tree d tree) tree) conds st ds = Ok st' ->
  (forall p, was_entered p st' = true -> was_entered p st_end = true) ->
  pp_lines (open_directives (pp_tree d (entered_files st_end tree))
              (entered_files st_end tree)) conds st ds = Ok st'.
Proof.
  induction d as [|d IHd].
  - (* no file can be entered at all *)
    induction ds as [|x ds IH]; intros conds st st' Hrun Hend; [done|].
    destruct x; cbn [pp_lines] in *;
      repeat match type of Hrun with
             | (if ?b then _ else _) = _ => destruct b eqn:?
             | match conds with _ => _ end = _ => destruct conds
             end;
      try discriminate; try (by apply IH);
      unfold open_directives in Hrun; by destruct (tree !! path).
  - induction ds as [|x ds IH]; intros conds st st' Hrun Hend; [done|].
    destruct x; cbn [pp_lines] in *;
      repeat match type of Hrun with
             | (if ?b then _ else _) = _ => destruct b eqn:?
             | match conds with _ => _ end = _ => destruct conds
             end;
      try discriminate; try (by apply IH).
    + (* #include *)
      destruct (open_directives _ tree (enter path st) path)
        as [st1|] eqn:Hopen; [|discriminate].
      unfold open_directives in Hopen |- *.
      destruct (tree !! path) as [dsp|] eqn:Hlook; [|discriminate].
      pose proof (pp_lines_was_entered path _ _ _ _ _ _ Hrun
                    (pp_tree_was_entered path _ _ _ _ _ Hopen
                       (was_entered_enter path st))) as Hp.
      assert (entered_files st_end tree !! path = Some dsp) as ->
        by (apply map_lookup_filter_Some; split; [done | by apply Hend]).
      cbn [pp_tree] in Hopen |- *. rewrite (IHd _ _ _ _ Hopen).
      * by apply IH.
      * intros q Hq. apply Hend. by eapply pp_lines_was_entered.
    + (* #import *)
      destruct (open_directives _ tree (enter path (mark_once path st)) path)
        as [st1|] eqn:Hopen; [|discriminate].
      unfold open_directives in Hopen |- *.
      destruct (tree !! path) as [dsp|] eqn:Hlook; [|discriminate].
      pose proof (pp_lines_was_entered path _ _ _ _ _ _ Hrun
                    (pp_tree_was_entered path _ _ _ _ _ Hopen
                       (was_entered_enter path (mark_once path st)))) as Hp.
      assert (entered_files st_end tree !! path = Some dsp) as ->
        by (apply map_lookup_filter_Some; split; [done | by apply Hend]).
      cbn [pp_tree] in Hopen |- *. rewrite (IHd _ _ _ _ Hopen).
      * by apply IH.
      * intros q Hq. apply Hend. by eapply pp_lines_was_entered.
Qed.

Lemma pp_tree_entered_only tree d st ds st' :
  pp_tree d tree st ds = Ok st' ->
  pp_tree d (entered_files st' tree) st ds = Ok st'.
Proof.
  destruct d as [|d]; [discriminate|]. cbn [pp_tree]. intros Hrun.
  by apply pp_lines_entered_only.
Qed.

(* ------------------------------------------------------------------ *)
(** ** Translation units that include the header                        *)
(* ------------------------------------------------------------------ *)

Lemma reopened_0 p st : reopened p 0 st = st.
Proof. unfold reopened; simpl. rewrite app_nil_r. by destruct st. Qed.

Lemma reopened_S p k st : reopened p k (enter p st) = reopened p (S k) st.
Proof. unfold reopened, enter; simpl. by rewrite <- app_assoc. Qed.

Lemma guard_expansions_reopened p k st :
  guard_expansions (reopened p k st) = guard_expansions st.
Proof.
  unfold guard_expansions, reopened; cbn [log]. rewrite count_occ_app.
  match goal with
  | |- _ + count_occ _ ?l ?x = _ =>
      assert (count_occ event_eq_dec l x = 0) as ->
        by (apply count_occ_not_In; intros Hin%repeat_spec; discriminate)
  end.
  apply Nat.add_0_r.
Qed.

(** With the guard defined, any number of further inclusions only opens
    the header again (not even that when it is marked once-only). *)
Lemma pp_lines_reinclude d tree n : forall st,
  tree !! Ghostty_header_path = Some Ghostty_header_directives ->
  defined Ghostty_header_h st = true ->
  pp_lines (open_directives (pp_tree (S d) tree) tree) [] st
           (repeat (DInclude Ghostty_header_path) n)
  = Ok (reopened Ghostty_header_path
          (if is_once Ghostty_header_path st then 0 else n) st).
Proof.
  induction n as [|n IH]; intros st Htree Hdef.
  - cbn [repeat pp_lines]. destruct (is_once _ _); by rewrite reopened_0.
  - cbn [repeat pp_lines active].
    destruct (is_once Ghostty_header_path st) eqn:Honce.
    + rewrite IH by done. by rewrite Honce.
    + unfold open_directives at 1. rewrite Htree, pp_tree_header.
      rewrite defined_enter, Hdef.
      rewrite IH by done.
      change (is_once Ghostty_header_path (enter Ghostty_header_path st))
        with (is_once Ghostty_header_path st).
      by rewrite Honce, reopened_S.
Qed.

(** Including the header [n] more times: whatever the first inclusion
    results in, as long as it leaves the guard defined, the further ones
    only open the header again. *)
Lemma reinclusion_reopens_only (tree : directive_tree)
    (predefined : gmap string string) (n : nat) (st1 : pp_state) :
  tree !! Ghostty_header_path = Some Ghostty_header_directives ->
  preprocess_directives tree predefined
    (repeat (DInclude Ghostty_header_path) 1) = Ok st1 ->
  defined Ghostty_header_h st1 = true ->
  preprocess_directives tree predefined
    (repeat (DInclude Ghostty_header_path) (S n))
  = Ok (reopened Ghostty_header_path
          (if is_once Ghostty_header_path st1 then 0 else n) st1).
Proof.
  intros Hhdr H1 Hdef. unfold preprocess_directives in *.
  cbn [pp_tree repeat pp_lines active] in *.
  rewrite is_once_initial in *.
  destruct (open_directives _ tree _ Ghostty_header_path) as [st'|];
    [|discriminate].
  cbn [pp_lines] in H1. injection H1 as ->.
  change max_include_depth with (S (Nat.pred max_include_depth)).
  by apply pp_lines_reinclude.
Qed.

(* ------------------------------------------------------------------ *)
(** ** The guarded lines are read once                                  *)
(* ------------------------------------------------------------------ *)

Lemma header_entered_silent tree st st' e :
  log st' = log st ++ [e] -> (forall q, e <> EvEnter q) ->
  header_entered tree st' -> header_entered tree st.
Proof.
  intros Hlog He (p & Hp & Hent). exists p. split; [done|].
  by rewrite <- (was_entered_silent p st st' e).
Qed.

Lemma guard_expansions_silent st st' e :
  log st' = log st ++ [e] -> e <> EvDefine Ghostty_header_h "" ->
  guard_expansions st' = guard_expansions st.
Proof.
  unfold guard_expansions. intros -> He. rewrite count_occ_app.
  rewrite (count_occ_cons_neq event_eq_dec); [cbn; lia | done].
Qed.

Lemma guard_expansions_define st :
  guard_expansions (define Ghostty_header_h "" st) = S (guard_expansions st).
Proof.
  unfold guard_expansions, define; cbn [log]. rewrite count_occ_app.
  rewrite (count_occ_cons_eq event_eq_dec); [cbn; lia | done].
Qed.

Lemma guard_inv_silent tree st st' e :
  log st' = log st ++ [e] ->
  (forall q, e <> EvEnter q) -> e <> EvDefine Ghostty_header_h "" ->
  defined Ghostty_header_h st' = defined Ghostty_header_h st ->
  guard_inv tree st -> guard_inv tree st'.
Proof.
  intros Hlog He1 He2 Hdef [Hcount Hent]. split.
  - by rewrite (guard_expansions_silent st st' e), Hdef.
  - intros H. rewrite Hdef. apply Hent. by eapply header_entered_silent.
Qed.

Lemma header_touches_guard : ~ leaves_guard_alone Ghostty_header_directives.
Proof.
  intros H. apply (bool_decide_pack _) in H. by vm_compute in H.
Qed.

(** Within a file that leaves the guard alone, [guard_inv] is kept as
    long as entering a file restores it. *)
Lemma pp_lines_guard_inv tree expand :
  (forall s q st', guard_inv tree s ->
     expand (enter q s) q = Ok st' -> guard_inv tree st') ->
  forall ds conds st st',
    leaves_guard_alone ds -> guard_inv tree st ->
    pp_lines expand conds st ds = Ok st' -> guard_inv tree st'.
Proof.
  intros Hexp ds conds st st' Hclean Hst Hrun.
  eapply (pp_lines_invariant (guard_inv tree)
            (fun d => touches Ghostty_header_h d = false));
    [ .. | exact Hclean | exact Hst | exact Hrun ].
  - intros m b s Hm. cbn in Hm. apply String.eqb_neq in Hm.
    apply (guard_inv_silent tree s _ (EvDefine m b)); try done.
    + congruence.
    + by apply defined_define_ne.
  - intros m s Hm. cbn in Hm. apply String.eqb_neq in Hm.
    apply (guard_inv_silent tree s _ (EvUndef m)); try done.
    by apply defined_undef_ne.
  - intros l s. by apply (guard_inv_silent tree s _ (EvDecl l)).
  - done.
  - intros s p s' _ Hs _. by apply Hexp.
  - intros s p s' _ Hs _. by apply Hexp.
Qed.

(** Entering a file of a guard-respecting tree restores [guard_inv] by
    the time the file has been read. *)
Lemma open_directives_guard_inv tree :
  respects_guard tree ->
  forall d s q st',
    guard_inv tree s ->
    open_directives (pp_tree d tree) tree (enter q s) q = Ok st' ->
    guard_inv tree st'.
Proof.
  intros Htree. induction d as [|d IH]; intros s q st' [Hcount Hent] Hrun;
    unfold open_directives in Hrun;
    destruct (tree !! q) as [ds|] eqn:Hq; try discriminate.
  destruct (Htree q ds Hq) as [->|Hclean].
  - (* the file is this header *)
    rewrite pp_tree_header, defined_enter in Hrun.
    destruct (defined Ghostty_header_h s) eqn:Hdef.
    + injection Hrun as <-. split; [|done].
      by rewrite (guard_expansions_silent s (enter q s) (EvEnter q)), defined_enter, Hdef.
    + assert (guard_inv tree
                (mark_once ghostty_h (define Ghostty_header_h "" (enter q s))))
        as Hinv.
      { split; [|intros _; by rewrite defined_mark_once, defined_define].
        change (guard_expansions (mark_once ?p ?st)) with (guard_expansions st).
        rewrite guard_expansions_define, defined_mark_once, defined_define.
        by rewrite (guard_expansions_silent s (enter q s) (EvEnter q)), Hcount. }
      destruct (was_entered ghostty_h (enter q s)).
      * by injection Hrun as <-.
      * by eapply IH.
  - (* the file leaves the guard alone *)
    cbn [pp_tree] in Hrun.
    eapply (pp_lines_guard_inv tree); [exact IH | exact Hclean | | exact Hrun].
    split.
    + by rewrite (guard_expansions_silent s (enter q s) (EvEnter q)), defined_enter.
    + intros (p & Hp & Hpe). rewrite defined_enter.
      rewrite was_entered_enter_other in Hpe.
      destruct (String.eqb_spec q p) as [->|_].
      * rewrite Hq in Hp. injection Hp as ->. by destruct header_touches_guard.
      * apply Hent. by exists p.
Qed.

(** A unit that leaves the guard alone, in a tree that respects it and
    with the guard not predefined, keeps [guard_inv]. *)
Lemma preprocess_guard_inv tree predefined unit_ds st :
  respects_guard tree ->
  predefined !! Ghostty_header_h = None ->
  leaves_guard_alone unit_ds ->
  preprocess_directives tree predefined unit_ds = Ok st ->
  guard_inv tree st.
Proof.
  intros Htree Hpre Hclean Hrun. unfold preprocess_directives in Hrun.
  cbn [pp_tree] in Hrun.
  eapply (pp_lines_guard_inv tree);
    [by apply open_directives_guard_inv | exact Hclean | | exact Hrun].
  split.
  - by rewrite defined_initial, Hpre.
  - by intros (p & _ & Hp).
Qed.

Lemma header_entered_entered_files tree st st_end :
  header_entered tree st ->
  (forall p, was_entered p st = true -> was_entered p st_end = true) ->
  header_entered (entered_files st_end tree) st.
Proof.
  intros (p & Hp & Hent) Hend. exists p. split; [|done].
  apply map_lookup_filter_Some. split; [done|]. by apply Hend.
Qed.

Lemma guard_expansions_once tree predefined unit_ds st :
  predefined !! Ghostty_header_h = None ->
  leaves_guard_alone unit_ds ->
  preprocess_directives tree predefined unit_ds = Ok st ->
  (forall p ds, was_entered p st = true -> tree !! p = Some ds ->
                ds = Ghostty_header_directives \/ leaves_guard_alone ds) ->
  guard_expansions st = (if defined Ghostty_header_h st then 1 else 0)
  /\ (header_entered tree st -> defined Ghostty_header_h st = true).
Proof.
  intros Hpre Hclean Hrun Hfiles.
  assert (respects_guard (entered_files st tree)) as Htree.
  { intros p ds [Hp Hent]%map_lookup_filter_Some. by eapply Hfiles. }
  apply pp_tree_entered_only in Hrun.
  destruct (preprocess_guard_inv _ _ _ _ Htree Hpre Hclean Hrun)
    as [Hcount Hdef].
  split; [done|]. intros Hent. apply Hdef.
  by apply header_entered_entered_files.
Qed.

(* ------------------------------------------------------------------ *)
(** ** Which candidate headers get entered                              *)
(* ------------------------------------------------------------------ *)

Lemma vt_accounted_for_silent tree st st' e :
  log st' = log st ++ [e] -> (forall q, e <> EvEnter q) ->
  vt_accounted_for tree st -> vt_accounted_for tree st'.
Proof.
  intros Hlog He Hst Hvt.
  rewrite (was_entered_silent _ st st' e) in Hvt by done.
  destruct (Hst Hvt) as (p & ds & Hp & Hlook & Hex).
  exists p, ds. split_and!; try done. by eapply was_entered_app.
Qed.

Lemma vt_accounted_for_enter tree st p ds q d :
  tree !! p = Some ds -> was_entered p st = true ->
  d ∈ ds -> (d = DInclude q \/ d = DImport q) ->
  vt_accounted_for tree st -> vt_accounted_for tree (enter q st).
Proof.
  intros Hlook Hp Hd Hq Hst Hvt.
  rewrite was_entered_enter_other in Hvt.
  destruct (String.eqb_spec q ghostty_vt_h) as [->|Hne].
  - exists p, ds. split_and!; try done.
    + by apply was_entered_app with (st := st) (es := [EvEnter ghostty_vt_h]).
    + apply Exists_exists. exists d. split; [done|].
      destruct Hq as [-> | ->]; cbn [names]; apply String.eqb_refl.
  - destruct (Hst Hvt) as (p' & ds' & Hp' & Hlook' & Hex).
    exists p', ds'. split_and!; try done.
    by apply was_entered_app with (st := st) (es := [EvEnter q]).
Qed.

(** While an entered file is read, the lower-level header stays
    accounted for. *)
Lemma pp_tree_vt_accounted_for tree : forall d p ds st st',
  tree !! p = Some ds -> was_entered p st = true ->
  vt_accounted_for tree st ->
  pp_tree d tree st ds = Ok st' ->
  vt_accounted_for tree st'.
Proof.
  induction d as [|d IH]; intros p ds st st' Hlook Hp Hst Hrun;
    [discriminate|].
  cbn [pp_tree] in Hrun.
  eapply proj1.
  eapply (pp_lines_invariant
            (fun s => vt_accounted_for tree s /\ was_entered p s = true)
            (fun x => x ∈ ds));
    [ .. | | | exact Hrun ].
  - intros m b s _ [Hs Hps]. split.
    + by apply (vt_accounted_for_silent tree s _ (EvDefine m b)).
    + by apply was_entered_app with (st := s) (es := [EvDefine m b]).
  - intros m s _ [Hs Hps]. split.
    + by apply (vt_accounted_for_silent tree s _ (EvUndef m)).
    + by apply was_entered_app with (st := s) (es := [EvUndef m]).
  - intros l s [Hs Hps]. split.
    + by apply (vt_accounted_for_silent tree s _ (EvDecl l)).
    + by apply was_entered_app with (st := s) (es := [EvDecl l]).
  - done.
  - intros s q s' Hq [Hs Hps] _ Hopen. unfold open_directives in Hopen.
    destruct (tree !! q) as [dsq|] eqn:Hlookq; [|discriminate].
    assert (was_entered p (enter q s) = true) as Hpq
      by (by apply was_entered_app with (st := s) (es := [EvEnter q])).
    split; [|by eapply pp_tree_was_entered].
    eapply (IH q dsq); [done | apply was_entered_enter | | exact Hopen].
    by apply (vt_accounted_for_enter tree s p ds q (DInclude q)); auto.
  - intros s q s' Hq [Hs Hps] _ Hopen. unfold open_directives in Hopen.
    destruct (tree !! q) as [dsq|] eqn:Hlookq; [|discriminate].
    assert (was_entered p (enter q (mark_once q s)) = true) as Hpq
      by (by apply was_entered_app with (st := mark_once q s)
                                        (es := [EvEnter q])).
    split; [|by eapply pp_tree_was_entered].
    eapply (IH q dsq); [done | apply was_entered_enter | | exact Hopen].
    by apply (vt_accounted_for_enter tree (mark_once q s) p ds q (DImport q));
      auto.
  - by apply Forall_forall.
  - done.
Qed.

(* ------------------------------------------------------------------ *)
(** ** The duplicate-definition hazard                                  *)
(* ------------------------------------------------------------------ *)

Lemma is_once_enter p q st : is_once p (enter q st) = is_once p st.
Proof. reflexivity. Qed.

Lemma is_once_define p m b st : is_once p (define m b st) = is_once p st.
Proof. reflexivity. Qed.

Lemma header_is_not_umbrella : String.eqb Ghostty_header_path ghostty_h = false.
Proof. reflexivity. Qed.

Lemma header_is_not_vt : String.eqb Ghostty_header_path ghostty_vt_h = false.
Proof. reflexivity. Qed.

Lemma umbrella_is_not_vt : String.eqb ghostty_h ghostty_vt_h = false.
Proof. reflexivity. Qed.

Lemma vt_is_not_umbrella : String.eqb ghostty_vt_h ghostty_h = false.
Proof. reflexivity. Qed.

Lemma umbrella_is_not_header : String.eqb ghostty_h Ghostty_header_path = false.
Proof. reflexivity. Qed.

Lemma vt_is_not_header : String.eqb ghostty_vt_h Ghostty_header_path = false.
Proof. reflexivity. Qed.

Create Rewrite HintDb obs.
#[local] Hint Rewrite was_entered_define was_entered_mark_once
  was_entered_enter_other was_entered_emit_all
  defined_enter defined_mark_once defined_emit_all defined_define
  is_once_enter is_once_define is_once_emit_all is_once_mark_once_other
  decls_enter decls_define decls_mark_once decls_emit_all
  header_is_not_umbrella header_is_not_vt umbrella_is_not_vt
  vt_is_not_umbrella umbrella_is_not_header vt_is_not_header
  String.eqb_refl orb_false_l orb_true_l : obs.





Section Hazard.
Variable tree : directive_tree.
Variables umbrella vt : list string.
Hypothesis tree_header :
  tree !! Ghostty_header_path = Some Ghostty_header_directives.
Hypothesis tree_umbrella : tree !! ghostty_h = Some (definitions umbrella).
Hypothesis tree_vt : tree !! ghostty_vt_h = Some (definitions vt).

Local Abbreviation entering d := (open_directives (pp_tree (S (S d)) tree) tree).











End Hazard.

(* ------------------------------------------------------------------ *)
(** ** Properties of Ghostty-header.h                                   *)
(* ------------------------------------------------------------------ *)

(** C1, as the code has it.  Take any tree of files and any macro
    configuration and preprocess this header as the unit.  The file
    itself names the umbrella header and not the lower-level one.  If
    preprocessing succeeds, then
    - [ghostty.h] has been entered exactly when the configuration leaves
      the guard undefined, and then exactly once;
    - if [ghostty/vt.h] has been entered at all, then some file that was
      entered names it in an inclusion directive (that file is not this
      header): the lower-level header comes in only through what the
      vendored header goes on to include;
    - so if no file that was entered names [ghostty/vt.h], the candidates
      entered are [ghostty.h] alone, or neither with the guard
      predefined.
    Preprocessing does succeed when the guard is predefined, and when
    the vendored header has no conditional or inclusion of its own. *)
Theorem header_includes_umbrella_only (tree : directive_tree)
    (predefined : gmap string string) :
  existsb (names ghostty_h) Ghostty_header_directives = true
  /\ existsb (names ghostty_vt_h) Ghostty_header_directives = false
  /\ (forall st : pp_state,
        preprocess_directives tree predefined Ghostty_header_directives
        = Ok st ->
        was_entered ghostty_h st
        = negb (defined Ghostty_header_h (initial predefined))
        /\ entries ghostty_h st
           = (if defined Ghostty_header_h (initial predefined) then 0 else 1)
        /\ (was_entered ghostty_vt_h st = true ->
            exists p ds,
              was_entered p st = true /\ tree !! p = Some ds
              /\ Exists (fun d => names ghostty_vt_h d = true) ds)
        /\ ((forall p ds,
               was_entered p st = true -> tree !! p = Some ds ->
               Forall (fun d => names ghostty_vt_h d = false) ds) ->
            candidates_included st
            = (if defined Ghostty_header_h (initial predefined) then []
               else [ghostty_h])))
  /\ (defined Ghostty_header_h (initial predefined) = true ->
      preprocess_directives tree predefined Ghostty_header_directives
      = Ok (initial predefined))
  /\ (forall ds : list directive,
        defined Ghostty_header_h (initial predefined) = false ->
        tree !! ghostty_h = Some ds ->
        forallb passive ds = true ->
        preprocess_directives tree predefined Ghostty_header_directives
        = Ok (foldl passive_step (guarded_entry (initial predefined)) ds)).
Proof.
  split; [by vm_compute|]. split; [by vm_compute|]. split_and!.
  - intros st Hrun. rewrite preprocess_directives_header in Hrun.
    destruct (defined Ghostty_header_h (initial predefined)) eqn:Hdef.
    { injection Hrun as <-. split_and!.
      - apply was_entered_initial.
      - apply entries_0, was_entered_initial.
      - intros H. by rewrite was_entered_initial in H.
      - intros _. unfold candidates_included, candidates. cbn [List.filter].
        by rewrite !was_entered_initial. }
    unfold open_directives in Hrun.
    destruct (tree !! ghostty_h) as [ds|] eqn:Hlook; [|discriminate].
    assert (sealed ghostty_h 1 st) as (He & _ & Hk).
    { eapply pp_tree_sealed; [|exact Hrun]. unfold guarded_entry.
      split; [apply was_entered_enter|].
      split; [apply is_once_mark_once_eq|].
      rewrite entries_enter, entries_0; [done|].
      by rewrite was_entered_mark_once, was_entered_define. }
    assert (vt_accounted_for tree st) as Hvt.
    { eapply (pp_tree_vt_accounted_for tree _ ghostty_h ds);
        [done | apply was_entered_enter | | exact Hrun].
      intros H. exfalso. revert H. unfold guarded_entry.
      rewrite was_entered_enter_other, was_entered_mark_once,
        was_entered_define, was_entered_initial. done. }
    split_and!; [by rewrite He | done | done |].
    intros Hnames. unfold candidates_included, candidates.
    cbn [List.filter]. rewrite He.
    destruct (was_entered ghostty_vt_h st) eqn:Ev; [|done].
    destruct (Hvt Ev) as (p & dsp & Hp & Hlk & Hex).
    apply Exists_exists in Hex as (x & Hx & Hxn).
    pose proof (Hnames p dsp Hp Hlk) as Hall. rewrite Forall_forall in Hall.
    rewrite (Hall x Hx) in Hxn. discriminate.
  - intros Hdef. by rewrite preprocess_directives_header, Hdef.
  - intros ds Hdef Hlook Hp. rewrite preprocess_directives_header, Hdef.
    unfold open_directives. rewrite Hlook.
    change max_include_depth with (S (Nat.pred max_include_depth)).
    cbn [pp_tree]. by rewrite pp_lines_passive.
Qed.

Lemma sample_wrapped_never_names_vt : never_names ghostty_vt_h sample_wrapped.
Proof.
  apply map_Forall_to_list. apply (bool_decide_unpack _).
  vm_compute. exact I.
Defined.

(** The same on a vendored header that has a guard of its own and
    includes a further file: of the two candidates the umbrella header
    alone is entered, once. *)
Lemma header_includes_umbrella_only_witness :
  exists st,
    preprocess_directives sample_wrapped ∅ Ghostty_header_directives = Ok st
    /\ candidates_included st = [ghostty_h]
    /\ entries ghostty_h st = 1
    /\ was_entered sample_types_h st = true.
Proof.
  eassert (preprocess_directives sample_wrapped ∅ Ghostty_header_directives
           = Ok _) as Hrun by (vm_compute; reflexivity).
  destruct (header_includes_umbrella_only sample_wrapped ∅)
    as (_ & _ & Hok & _).
  destruct (Hok _ Hrun) as (_ & Hentries & _ & Hcand).
  eexists. split; [exact Hrun|]. split_and!.
  - apply Hcand. intros p ds _ Hp.
    exact (map_Forall_lookup_1 _ _ _ _ sample_wrapped_never_names_vt Hp).
  - exact Hentries.
  - vm_compute. reflexivity.
Defined.

(** C1 as stated does not hold of every build configuration.  Nothing
    in the header keeps a unit from importing [ghostty/vt.h] next to it,
    and then both candidates are entered; with [-DGhostty_header_h] the
    header's guard skips the import, so that neither is; and when the
    vendored [ghostty.h] itself includes [ghostty/vt.h], the header alone
    brings both in. *)
Lemma not_exactly_one_in_every_configuration :
  (preprocess sample_tree ∅ unit_with_both = Ok sample_both
   /\ candidates_included sample_both = [ghostty_h; ghostty_vt_h])
  /\ (preprocess sample_tree {[Ghostty_header_h := ""]} Ghostty_header_lines
      = Ok (initial {[Ghostty_header_h := ""]})
      /\ candidates_included (initial {[Ghostty_header_h := ""]}) = [])
  /\ (preprocess sample_tree_reaching_vt ∅ Ghostty_header_lines
      = Ok sample_reached_vt
      /\ candidates_included sample_reached_vt = [ghostty_h; ghostty_vt_h]).
Proof. split_and!; vm_compute; reflexivity. Qed.

(** C2. The file holds exactly one inclusion directive, an [#import] of
    [ghostty/Vendor/include/ghostty.h]; once comment lines and blank
    lines are set aside, what remains is that import between the three
    lines of the include guard ([#ifndef], [#define], [#endif]). *)
Theorem single_import_directive :
  List.filter is_inclusion Ghostty_header_directives = [DImport ghostty_h]
  /\ List.filter (fun d => negb (is_trivia d)) Ghostty_header_directives
     = [ DIfndef Ghostty_header_h
       ; DDefine Ghostty_header_h ""
       ; DImport ghostty_h
       ; DEndif ].
Proof. split; reflexivity. Qed.

(** C3, as the code has it.  The guarded lines are read exactly once,
    and the guard is defined afterwards, in every translation unit that
    enters the header, however often and by whatever path of
    inclusions, provided the configuration does not predefine
    [Ghostty_header_h] and neither the unit's own lines nor those of any
    other file it enters define or undefine that macro.  And inclusion
    is idempotent: if a unit that includes the header once preprocesses
    to [st1] with the guard defined, a unit that includes it [n] more
    times preprocesses to [st1] again, up to the header having been
    opened [n] more times (not even that, should a file have marked the
    header once-only), and the guarded lines have been read as often as
    in [st1]. *)
Theorem guard_idempotent (tree : directive_tree)
    (predefined : gmap string string) :
  (forall (unit_ds : list directive) (st : pp_state),
     predefined !! Ghostty_header_h = None ->
     leaves_guard_alone unit_ds ->
     preprocess_directives tree predefined unit_ds = Ok st ->
     (forall p ds,
        was_entered p st = true -> tree !! p = Some ds ->
        ds = Ghostty_header_directives \/ leaves_guard_alone ds) ->
     header_entered tree st ->
     guard_expansions st = 1 /\ defined Ghostty_header_h st = true)
  /\ (forall (n : nat) (st1 : pp_state),
        tree !! Ghostty_header_path = Some Ghostty_header_directives ->
        preprocess_directives tree predefined
          (repeat (DInclude Ghostty_header_path) 1) = Ok st1 ->
        defined Ghostty_header_h st1 = true ->
        preprocess_directives tree predefined
          (repeat (DInclude Ghostty_header_path) (S n))
        = Ok (reopened Ghostty_header_path
                (if is_once Ghostty_header_path st1 then 0 else n) st1)
        /\ guard_expansions
             (reopened Ghostty_header_path
                (if is_once Ghostty_header_path st1 then 0 else n) st1)
           = guard_expansions st1).
Proof.
  split.
  - intros unit_ds st Hpre Hclean Hrun Hfiles Hent.
    destruct (guard_expansions_once tree predefined unit_ds st
                Hpre Hclean Hrun Hfiles) as [Hcount Hdef].
    by rewrite Hcount, (Hdef Hent).
  - intros n st1 Hhdr H1 Hdef. split.
    + by apply reinclusion_reopens_only.
    + apply guard_expansions_reopened.
Qed.

Lemma sample_directives_respect_guard : respects_guard sample_directives.
Proof.
  apply map_Forall_to_list. apply (bool_decide_unpack _).
  vm_compute. exact I.
Defined.

Lemma sample_unit_leaves_guard_alone : leaves_guard_alone sample_unit.
Proof. apply (bool_decide_unpack _). vm_compute. exact I. Defined.

Lemma guard_idempotent_witness :
  (exists st,
     preprocess_directives sample_directives ∅ sample_unit = Ok st
     /\ guard_expansions st = 1 /\ defined Ghostty_header_h st = true)
  /\ preprocess_directives sample_directives ∅
       (repeat (DInclude Ghostty_header_path) 3)
     = Ok (reopened Ghostty_header_path 2 sample_included)
  /\ guard_expansions (reopened Ghostty_header_path 2 sample_included)
     = guard_expansions sample_included.
Proof.
  destruct (guard_idempotent sample_directives ∅) as [Honce Hagain].
  split.
  - eassert (preprocess_directives sample_directives ∅ sample_unit = Ok _)
      as Hrun by (vm_compute; reflexivity).
    eexists. split; [exact Hrun|].
    apply (Honce sample_unit _ (lookup_empty Ghostty_header_h)
             sample_unit_leaves_guard_alone Hrun).
    + intros p ds _ Hp. exact (sample_directives_respect_guard p ds Hp).
    + exists Ghostty_header_path. split; vm_compute; reflexivity.
  - apply (Hagain 2 sample_included).
    + vm_compute. reflexivity.
    + vm_compute. reflexivity.
    + reflexivity.
Defined.

(** C3 as stated does not hold of every translation unit that includes
    the header.  A unit that undefines the guard between two inclusions
    reads the guarded lines twice; so does one that includes the header
    twice when the vendored header undefines the guard; with
    [-DGhostty_header_h], or after a [#define] of the guard in the unit
    itself, the header is entered and its guarded lines are not read at
    all. *)
Lemma guarded_lines_read_twice_or_never :
  (exists st,
     preprocess sample_tree ∅ unit_with_undef = Ok st
     /\ was_entered Ghostty_header_path st = true
     /\ guard_expansions st = 2)
  /\ (exists st,
        preprocess sample_tree_undefining ∅ (unit_including 2) = Ok st
        /\ was_entered Ghostty_header_path st = true
        /\ guard_expansions st = 2)
  /\ (exists st,
        preprocess sample_tree {[Ghostty_header_h := ""]} (unit_including 1)
        = Ok st
        /\ was_entered Ghostty_header_path st = true
        /\ guard_expansions st = 0)
  /\ (exists st,
        preprocess sample_tree ∅ unit_defining = Ok st
        /\ was_entered Ghostty_header_path st = true
        /\ guard_expansions st = 0).
Proof. split_and!; eexists; split_and!; vm_compute; reflexivity. Qed.





(** C5. No line of the file is program text: the file declares nothing
    of its own.  With the effect of the import left out (entering a file
    does nothing), preprocessing the header from any state succeeds and
    hands no text to the compiler. *)
Theorem no_program_text :
  List.filter is_text Ghostty_header_directives = []
  /\ forall st : pp_state,
       exists st',
         pp_lines (fun s _ => Ok s) [] st Ghostty_header_directives = Ok st'
         /\ decls st' = decls st.
Proof.
  split; [reflexivity|]. intros st. rewrite pp_lines_header.
  destruct (defined Ghostty_header_h st); [by eexists|].
  destruct (was_entered ghostty_h st); eexists; split; try reflexivity.
  - by rewrite decls_mark_once, decls_define.
  - unfold guarded_entry.
    by rewrite decls_enter, decls_mark_once, decls_define.
Qed.

(** C6. The file is eighteen lines long (seventeen line feeds; the last
    line is not terminated) and describes itself as the bridging header
    that exposes the Ghostty C API to Swift.  What it does is hand the
    vendored umbrella header on, and nothing else: in any tree of files
    and any configuration, preprocessing the header as the unit is
    reading [ghostty/Vendor/include/ghostty.h] with the guard defined
    (it fails with "file not found" for that path when the tree does not
    hold it), or nothing at all when the configuration predefines the
    guard.  When the vendored header has no conditional or inclusion of
    its own, preprocessing succeeds, the lines of program text passed on
    are exactly those of the vendored header, in order and as written
    there, and that header has been entered once. *)
Theorem eighteen_lines_one_purpose (tree : directive_tree)
    (predefined : gmap string string) :
  split_lines Ghostty_header_text = Ghostty_header_lines
  /\ length (split_lines Ghostty_header_text) = 18
  /\ count_char LF Ghostty_header_text = 17
  /\ directive_at 5
     = Some (DComment "  Bridging header to expose Ghostty C API to Swift")
  /\ preprocess_directives tree predefined Ghostty_header_directives
     = (if defined Ghostty_header_h (initial predefined)
        then Ok (initial predefined)
        else match tree !! ghostty_h with
             | None => Err (FileNotFound ghostty_h)
             | Some ds =>
                 pp_tree max_include_depth tree
                   (guarded_entry (initial predefined)) ds
             end)
  /\ (forall ds : list directive,
        tree !! ghostty_h = Some ds ->
        forallb passive ds = true ->
        exists st,
          preprocess_directives tree predefined Ghostty_header_directives
          = Ok st
          /\ decls st
             = (if defined Ghostty_header_h (initial predefined) then []
                else program_text ds)
          /\ entries ghostty_h st
             = (if defined Ghostty_header_h (initial predefined) then 0
                else 1)).
Proof.
  split_and!; try reflexivity.
  - apply preprocess_directives_header.
  - intros ds Hlook Hp. rewrite preprocess_directives_header.
    destruct (defined Ghostty_header_h (initial predefined)).
    { eexists. split; [reflexivity|]. split; [done|].
      apply entries_0, was_entered_initial. }
    unfold open_directives. rewrite Hlook.
    change max_include_depth with (S (Nat.pred max_include_depth)).
    cbn [pp_tree]. rewrite pp_lines_passive by done.
    eexists. split; [reflexivity|]. split.
    + rewrite decls_passive. unfold guarded_entry.
      by rewrite decls_enter, decls_mark_once, decls_define.
    + rewrite entries_passive. unfold guarded_entry.
      rewrite entries_enter, entries_0; [done|].
      by rewrite was_entered_mark_once, was_entered_define.
Qed.

(** The same on the sample tree: what is passed on are the two lines of
    the sample umbrella header; and nothing with the guard predefined. *)
Lemma eighteen_lines_one_purpose_witness :
  (exists st,
     preprocess_directives sample_directives ∅ Ghostty_header_directives
     = Ok st
     /\ decls st = sample_ghostty_h
     /\ entries ghostty_h st = 1)
  /\ (exists st,
        preprocess_directives sample_directives {[Ghostty_header_h := "1"]}
          Ghostty_header_directives = Ok st
        /\ decls st = []
        /\ entries ghostty_h st = 0).
Proof.
  split.
  - destruct (eighteen_lines_one_purpose sample_directives ∅)
      as (_ & _ & _ & _ & _ & Hpassive).
    exact (Hpassive (definitions sample_ghostty_h) eq_refl eq_refl).
  - destruct (eighteen_lines_one_purpose sample_directives
                {[Ghostty_header_h := "1"]})
      as (_ & _ & _ & _ & _ & Hpassive).
    exact (Hpassive (definitions sample_ghostty_h) eq_refl eq_refl).
Defined.

(** C7. Frame: from any state, in any file tree, preprocessing the
    header leaves the state as it was when the guard is already defined;
    otherwise it defines [Ghostty_header_h] with an empty body, marks the
    vendored header once-only and, unless that header was entered before,
    enters it; the result is then whatever that one header yields.  The
    file has no other [#define] and no [#undef]. *)
Theorem header_frame (d : nat) (tree : file_tree) (st : pp_state) :
  pp_file (S d) tree st Ghostty_header_lines
  = (if defined Ghostty_header_h st then Ok st
     else
       let st1 := {| macros := <[Ghostty_header_h := ""]> (macros st);
                     once := {[ghostty_h]} ∪ once st;
                     log := log st ++ [EvDefine Ghostty_header_h ""] |} in
       if was_entered ghostty_h st then Ok st1
       else open_file (pp_file d tree) tree (enter ghostty_h st1) ghostty_h)
  /\ List.filter is_macro_change Ghostty_header_directives
     = [DDefine Ghostty_header_h ""].
Proof. split; [apply pp_file_header | reflexivity]. Qed.

(** C8, as the code has it.  Line 16 is an [#import], not an
    [#include].  Once the header has been preprocessed with its guard
    undefined, the vendored header has been entered once (or, if the
    unit had entered it before, not again), and nothing the translation
    unit goes on to read enters it again: not a second inclusion of this
    header with the guard undefined in between, not a direct [#include]
    of the vendored header. *)
Theorem import_once_only (d d' : nat) (tree : file_tree)
    (st st1 st2 : pp_state) (rest : list string) :
  defined Ghostty_header_h st = false ->
  pp_file (S d) tree st Ghostty_header_lines = Ok st1 ->
  pp_file d' tree st1 rest = Ok st2 ->
  directive_at 16 = Some (DImport ghostty_h)
  /\ entries ghostty_h st1
     = (if was_entered ghostty_h st then entries ghostty_h st else 1)
  /\ entries ghostty_h st2 = entries ghostty_h st1.
Proof.
  intros Hdef H1 H2. split; [reflexivity|].
  rewrite pp_file_header, Hdef in H1.
  assert (sealed ghostty_h
            (if was_entered ghostty_h st then entries ghostty_h st else 1) st1)
    as Hsealed.
  { destruct (was_entered ghostty_h st) eqn:Hent.
    - injection H1 as <-. split_and!.
      + by rewrite was_entered_mark_once, was_entered_define.
      + apply is_once_mark_once_eq.
      + by apply (entries_other ghostty_h st _ (EvDefine Ghostty_header_h "")).
    - unfold open_file in H1.
      destruct (tree !! ghostty_h) as [ls|]; [|discriminate].
      eapply pp_file_sealed; [|exact H1].
      unfold guarded_entry. split_and!.
      + apply was_entered_enter.
      + apply is_once_mark_once_eq.
      + rewrite entries_enter. f_equal. apply entries_0.
        by rewrite was_entered_mark_once, was_entered_define. }
  pose proof (pp_file_sealed _ _ _ _ _ _ _ Hsealed H2) as (_ & _ & Hk2).
  destruct Hsealed as (_ & _ & Hk1). by rewrite Hk1, Hk2.
Qed.

(** The same on a concrete unit: the header is included, the guard is
    undefined, the header is included again and the vendored header is
    then included directly; it is entered once all the same, although
    the guarded lines are read twice. *)
Lemma import_once_only_witness :
  pp_file 3 sample_tree (initial ∅) Ghostty_header_lines = Ok sample_once
  /\ pp_file 4 sample_tree sample_once sample_rest = Ok sample_again
  /\ count_occ event_eq_dec (log sample_again) (EvDefine Ghostty_header_h "") = 2
  /\ entries ghostty_h sample_once = 1
  /\ entries ghostty_h sample_again = entries ghostty_h sample_once.
Proof.
  assert (pp_file 3 sample_tree (initial ∅) Ghostty_header_lines
          = Ok sample_once) as H1 by (vm_compute; reflexivity).
  assert (pp_file 4 sample_tree sample_once sample_rest = Ok sample_again)
    as H2 by (vm_compute; reflexivity).
  split; [exact H1|]. split; [exact H2|]. split; [vm_compute; reflexivity|].
  exact (proj2 (import_once_only 2 4 sample_tree (initial ∅) _ _ sample_rest
                  eq_refl H1 H2)).
Defined.

(** C8 as stated does not hold: the vendored header can be entered more
    than once in a translation unit that includes this header.  The
    header's [#import] does not undo what the unit did before it, two
    direct [#include]s say; and with [-DGhostty_header_h] the guard skips
    the [#import], so that nothing marks the vendored header once-only
    and two later [#include]s enter it twice. *)
Lemma vendored_header_entered_twice :
  (exists st,
     preprocess sample_tree ∅ unit_twice_before = Ok st
     /\ was_entered Ghostty_header_path st = true
     /\ entries ghostty_h st = 2)
  /\ (exists st,
        preprocess sample_tree {[Ghostty_header_h := ""]} unit_twice_after
        = Ok st
        /\ was_entered Ghostty_header_path st = true
        /\ entries ghostty_h st = 2).
Proof. split_and!; eexists; split_and!; vm_compute; reflexivity. Qed.

(** For contrast: the same file with [#include] in place of [#import]
    lets the unit of the witness enter the vendored header three
    times. *)
Example include_variant_enters_again :
  exists st1 st2,
    pp_file 3 (<[Ghostty_header_path := with_include_instead]> sample_tree)
      (initial ∅) with_include_instead = Ok st1
    /\ pp_file 4 (<[Ghostty_header_path := with_include_instead]> sample_tree)
         st1 sample_rest = Ok st2
    /\ entries ghostty_h st2 = 3.
Proof. eexists _, _. split_and!; vm_compute; reflexivity. Qed.

(** C9. Lines 14 and 15 of the file are comments saying that the file is
    excluded from Package.swift and may not be in use, and that the
    correct path is now [ghostty/Vendor/include/ghostty.h]; line 16
    imports that very path. *)
Theorem header_documents_exclusion :
  directive_at 14
  = Some (DComment
      " NOTE: This file is excluded from Package.swift and may not be in use.")
  /\ directive_at 15
     = Some (DComment (" The correct path is now " +:+ ghostty_h))
  /\ directive_at 16 = Some (DImport ghostty_h).
Proof. split_and!; reflexivity. Qed.

(* ------------------------------------------------------------------ *)
(** ** Further properties of the header                                 *)
(* ------------------------------------------------------------------ *)

(** *** When the vendored header is missing *)

(** X1. When the tree has no [ghostty/Vendor/include/ghostty.h], the
    header cannot be preprocessed: as the unit itself it fails with "file
    not found" for exactly that path, and so does every unit that
    includes or imports it after directives of its own that neither open
    a conditional, nor include a file, nor touch the guard, whatever
    comes after the inclusion.  Only with the guard predefined is the
    missing file never looked for. *)
Theorem missing_vendored_header_aborts (tree : directive_tree)
    (predefined : gmap string string) (pre rest : list directive) :
  tree !! Ghostty_header_path = Some Ghostty_header_directives ->
  tree !! ghostty_h = None ->
  predefined !! Ghostty_header_h = None ->
  forallb passive pre = true ->
  leaves_guard_alone pre ->
  preprocess_directives tree predefined Ghostty_header_directives
  = Err (FileNotFound ghostty_h)
  /\ preprocess_directives tree predefined
       (pre ++ DInclude Ghostty_header_path :: rest)
     = Err (FileNotFound ghostty_h)
  /\ preprocess_directives tree predefined
       (pre ++ DImport Ghostty_header_path :: rest)
     = Err (FileNotFound ghostty_h)
  /\ forall v : string,
       preprocess_directives tree (<[Ghostty_header_h := v]> predefined)
         Ghostty_header_directives
       = Ok (initial (<[Ghostty_header_h := v]> predefined)).
Proof.
  intros Hhdr Hnone Hpre Hpassive Hclean.
  assert (forall d st,
            defined Ghostty_header_h st = false ->
            was_entered ghostty_h st = false ->
            open_directives (pp_tree (S d) tree) tree st Ghostty_header_path
            = Err (FileNotFound ghostty_h)) as Hfail.
  { intros d st Hdef Hent. unfold open_directives at 1.
    rewrite Hhdr, pp_tree_header, Hdef, Hent.
    unfold open_directives. by rewrite Hnone. }
  assert (defined Ghostty_header_h (initial predefined) = false) as Hdef0
    by (by rewrite defined_initial, Hpre).
  split_and!.
  - rewrite preprocess_directives_header, Hdef0.
    unfold open_directives. by rewrite Hnone.
  - unfold preprocess_directives. cbn [pp_tree].
    rewrite pp_lines_passive_app by exact Hpassive.
    cbn [pp_lines active].
    rewrite is_once_passive, is_once_initial.
    change max_include_depth with (S (Nat.pred max_include_depth)).
    rewrite Hfail; [done| |].
    + rewrite defined_enter. by rewrite defined_passive.
    + rewrite was_entered_enter_other, header_is_not_umbrella.
      by rewrite was_entered_passive.
  - unfold preprocess_directives. cbn [pp_tree].
    rewrite pp_lines_passive_app by exact Hpassive.
    cbn [pp_lines active].
    rewrite was_entered_passive, was_entered_initial.
    change max_include_depth with (S (Nat.pred max_include_depth)).
    rewrite Hfail; [done| |].
    + rewrite defined_enter, defined_mark_once. by rewrite defined_passive.
    + rewrite was_entered_enter_other, header_is_not_umbrella.
      by rewrite was_entered_mark_once, was_entered_passive.
  - intros v. rewrite preprocess_directives_header, defined_initial.
    by rewrite lookup_insert_eq.
Qed.

Lemma missing_vendored_header_aborts_witness :
  preprocess_directives sample_without_vendored ∅ Ghostty_header_directives
  = Err (FileNotFound ghostty_h)
  /\ preprocess_directives sample_without_vendored ∅
       ([ DText "static int before;" ] ++ DInclude Ghostty_header_path
          :: [ DText "static int after;" ])
     = Err (FileNotFound ghostty_h)
  /\ preprocess_directives sample_without_vendored ∅
       ([ DText "static int before;" ] ++ DImport Ghostty_header_path
          :: [ DText "static int after;" ])
     = Err (FileNotFound ghostty_h)
  /\ forall v : string,
       preprocess_directives sample_without_vendored
         (<[Ghostty_header_h := v]> ∅) Ghostty_header_directives
       = Ok (initial (<[Ghostty_header_h := v]> ∅)).
Proof.
  apply (missing_vendored_header_aborts sample_without_vendored ∅
           [ DText "static int before;" ] [ DText "static int after;" ]).
  - vm_compute. reflexivity.
  - vm_compute. reflexivity.
  - apply lookup_empty.
  - reflexivity.
  - apply (bool_decide_unpack _). vm_compute. exact I.
Defined.

(** *** A vendored header that includes this header back *)

(** Inside the vendored header, once entered: passive lines do what they
    do, and including this header back does not enter anything. *)
Lemma pp_lines_back d tree (ds : list directive) : forall st,
  tree !! Ghostty_header_path = Some Ghostty_header_directives ->
  Forall passive_or_back ds ->
  was_entered ghostty_h st = true ->
  exists st',
    pp_lines (open_directives (pp_tree (S d) tree) tree) [] st ds = Ok st'
    /\ was_entered ghostty_h st' = true
    /\ entries ghostty_h st' = entries ghostty_h st.
Proof.
  intros st Hhdr Hall. revert st.
  assert (forall st,
            was_entered ghostty_h st = true ->
            exists st',
              open_directives (pp_tree (S d) tree) tree
                (enter Ghostty_header_path st) Ghostty_header_path = Ok st'
              /\ was_entered ghostty_h st' = true
              /\ entries ghostty_h st' = entries ghostty_h st) as Hback.
  { intros st Hent. unfold open_directives. rewrite Hhdr, pp_tree_header.
    rewrite defined_enter, was_entered_enter_other, Hent, orb_true_r.
    destruct (defined Ghostty_header_h st); eexists; (split; [reflexivity|]).
    - split.
      + by rewrite was_entered_enter_other, Hent, orb_true_r.
      + by apply entries_enter_ne.
    - split.
      + by rewrite was_entered_mark_once, was_entered_define,
          was_entered_enter_other, Hent, orb_true_r.
      + rewrite <- (entries_enter_ne ghostty_h Ghostty_header_path st) by done.
        by apply (entries_other ghostty_h _ _ (EvDefine Ghostty_header_h "")). }
  induction Hall as [|d0 ds Hd0 Hall IH]; intros st Hent.
  - by exists st.
  - destruct Hd0 as [Hp | [-> | ->]].
    + (* a passive line *)
      destruct d0; try discriminate; cbn [pp_lines active].
      * destruct (IH st Hent) as (st' & -> & ? & ?). by exists st'.
      * destruct (IH st Hent) as (st' & -> & ? & ?). by exists st'.
      * destruct (IH (define m body st)) as (st' & -> & ? & He);
          [by eapply was_entered_app|].
        exists st'. split_and!; try done.
        rewrite He. by apply (entries_other ghostty_h st _ (EvDefine m body)).
      * destruct (IH (undef m st)) as (st' & -> & ? & He);
          [by eapply was_entered_app|].
        exists st'. split_and!; try done.
        rewrite He. by apply (entries_other ghostty_h st _ (EvUndef m)).
      * destruct (IH (emit line st)) as (st' & -> & ? & He);
          [by eapply was_entered_app|].
        exists st'. split_and!; try done.
        rewrite He. by apply (entries_other ghostty_h st _ (EvDecl line)).
    + (* #include of this header *)
      cbn [pp_lines active].
      destruct (is_once Ghostty_header_path st).
      * destruct (IH st Hent) as (st' & -> & ? & ?). by exists st'.
      * destruct (Hback st Hent) as (st1 & -> & Hent1 & He1).
        destruct (IH st1 Hent1) as (st' & -> & ? & He).
        exists st'. split_and!; [done | done | by rewrite He, He1].
    + (* #import of this header *)
      cbn [pp_lines active].
      destruct (was_entered Ghostty_header_path st).
      * destruct (IH (mark_once Ghostty_header_path st) Hent)
          as (st' & -> & ? & ?). by exists st'.
      * destruct (Hback (mark_once Ghostty_header_path st) Hent)
          as (st1 & -> & Hent1 & He1).
        destruct (IH st1 Hent1) as (st' & -> & ? & He).
        exists st'. split_and!; [done | done | by rewrite He, He1].
Qed.

(** X2. Circular inclusion is harmless.  Let the directives of the
    vendored header be any mix of passive ones ([#undef Ghostty_header_h]
    among them) and inclusions of this header, by [#include] or
    [#import].  In any configuration that does not predefine the guard,
    preprocessing this header succeeds and the vendored header is
    entered exactly once: every inclusion back finds the guard defined
    or the vendored header already entered. *)
Theorem circular_inclusion_is_harmless (tree : directive_tree)
    (predefined : gmap string string) (api : list directive) :
  tree !! Ghostty_header_path = Some Ghostty_header_directives ->
  tree !! ghostty_h = Some api ->
  predefined !! Ghostty_header_h = None ->
  Forall passive_or_back api ->
  exists st,
    preprocess_directives tree predefined Ghostty_header_directives = Ok st
    /\ entries ghostty_h st = 1.
Proof.
  intros Hhdr Hapi Hpre Hall.
  rewrite preprocess_directives_header, defined_initial, Hpre.
  unfold open_directives at 1. rewrite Hapi.
  change max_include_depth with (S (S (Nat.pred (Nat.pred max_include_depth)))).
  cbn [pp_tree].
  destruct (pp_lines_back (Nat.pred (Nat.pred max_include_depth)) tree
              api (guarded_entry (initial predefined)) Hhdr Hall)
    as (st & Hrun & _ & He); [apply was_entered_enter|].
  exists st. split; [exact Hrun|]. rewrite He. unfold guarded_entry.
  rewrite entries_enter, entries_0; [done|].
  by rewrite was_entered_mark_once, was_entered_define.
Qed.

Lemma sample_cyclic_h_back : Forall passive_or_back sample_cyclic_h.
Proof. apply (bool_decide_unpack _). vm_compute. exact I. Defined.

Lemma circular_inclusion_is_harmless_witness :
  exists st,
    preprocess_directives sample_cyclic_tree ∅ Ghostty_header_directives
    = Ok st
    /\ entries ghostty_h st = 1.
Proof.
  apply (circular_inclusion_is_harmless sample_cyclic_tree ∅ sample_cyclic_h).
  - vm_compute. reflexivity.
  - vm_compute. reflexivity.
  - apply lookup_empty.
  - exact sample_cyclic_h_back.
Defined.

(** For contrast: without guard and with [#include], the same circle
    runs into the nesting limit. *)
Example unguarded_variant_recurses :
  preprocess_directives sample_unguarded_tree ∅ unguarded_variant
  = Err IncludeTooDeep.
Proof. vm_compute. reflexivity. Qed.

(** *** What holds of the guard afterwards *)

Lemma header_guard_safe : Forall guard_safe Ghostty_header_directives.
Proof. rewrite Ghostty_header_directives_eq. repeat constructor. Qed.

Lemma leaves_guard_alone_safe ds :
  leaves_guard_alone ds -> Forall guard_safe ds.
Proof.
  intros Hclean. eapply Forall_impl; [exact Hclean|].
  intros [] Hd; cbn in *; try done.
  - intros ->. by rewrite String.eqb_refl in Hd.
  - intros ->. by rewrite String.eqb_refl in Hd.
Qed.

(** X4. Once the header has been preprocessed, from whatever state and
    however much the vendored header went on to include,
    [Ghostty_header_h] is defined, and if it was not defined before, its
    body is empty: provided no other file that has been entered defines
    or undefines that macro. *)
Theorem guard_defined_afterwards (d : nat) (tree : directive_tree)
    (st st' : pp_state) :
  pp_tree d tree st Ghostty_header_directives = Ok st' ->
  (forall p ds,
     was_entered p st' = true -> tree !! p = Some ds ->
     ds = Ghostty_header_directives \/ leaves_guard_alone ds) ->
  defined Ghostty_header_h st' = true
  /\ (defined Ghostty_header_h st = false ->
      macros st' !! Ghostty_header_h = Some "").
Proof.
  intros Hrun Hfiles.
  assert (map_Forall (fun _ ds => Forall guard_safe ds)
            (entered_files st' tree)) as Hsafe.
  { intros p ds [Hp Hent]%map_lookup_filter_Some.
    destruct (Hfiles p ds Hent Hp) as [->|Hclean].
    - apply header_guard_safe.
    - by apply leaves_guard_alone_safe. }
  apply pp_tree_entered_only in Hrun.
  destruct d as [|d]; [discriminate|].
  rewrite pp_tree_header in Hrun.
  destruct (defined Ghostty_header_h st) eqn:Hdef.
  { injection Hrun as <-. by split. }
  assert (macros st' !! Ghostty_header_h = Some "") as Hbody.
  { destruct (was_entered ghostty_h st).
    - injection Hrun as <-. unfold mark_once, define; simpl.
      apply lookup_insert_eq.
    - unfold open_directives in Hrun.
      destruct (entered_files st' tree !! ghostty_h) as [ls|] eqn:Hls;
        [|discriminate].
      eapply (pp_tree_invariant
                (fun s => macros s !! Ghostty_header_h = Some "") guard_safe);
        [ .. | exact Hsafe | exact (Hsafe _ _ Hls) | | exact Hrun ];
        try done.
      + intros m b s Hm Hs. unfold define; simpl.
        destruct (decide (m = Ghostty_header_h)) as [->|Hne].
        * rewrite (Hm eq_refl). apply lookup_insert_eq.
        * by rewrite lookup_insert_ne.
      + intros m s Hm Hs. unfold undef; simpl. by rewrite lookup_delete_ne.
      + unfold guarded_entry, enter, mark_once, define; simpl.
        apply lookup_insert_eq. }
  split; [|done]. unfold defined. by rewrite Hbody.
Qed.

(** The same on the vendored header that has a guard of its own and
    includes a further file. *)
Lemma guard_defined_afterwards_witness :
  exists st',
    pp_tree 4 sample_wrapped (initial ∅) Ghostty_header_directives = Ok st'
    /\ defined Ghostty_header_h st' = true
    /\ macros st' !! Ghostty_header_h = Some "".
Proof.
  eassert (pp_tree 4 sample_wrapped (initial ∅) Ghostty_header_directives
           = Ok _) as Hrun by (vm_compute; reflexivity).
  eexists. split; [exact Hrun|].
  destruct (guard_defined_afterwards 4 sample_wrapped (initial ∅) _ Hrun)
    as [Hdef Hbody].
  - intros p ds _ Hp. revert p ds Hp.
    change (respects_guard sample_wrapped).
    apply map_Forall_to_list. apply (bool_decide_unpack _).
    vm_compute. exact I.
  - split; [exact Hdef|]. by apply Hbody.
Defined.

(** *** The header does not reach for the lower-level header *)

Lemma pp_tree_without_vt (tree tree' : directive_tree) :
  (forall p, p <> ghostty_vt_h -> tree !! p = tree' !! p) ->
  never_names ghostty_vt_h (delete ghostty_vt_h tree) ->
  forall d st ds,
    Forall (fun x => names ghostty_vt_h x = false) ds ->
    pp_tree d tree st ds = pp_tree d tree' st ds.
Proof.
  intros Hsame Hnames. induction d as [|d IH]; intros st ds Hds; [done|].
  cbn [pp_tree].
  apply (pp_lines_ext (fun x => names ghostty_vt_h x = false));
    [| |exact Hds];
    intros s p Hp%String.eqb_neq; unfold open_directives;
    rewrite <- (Hsame p Hp);
    (destruct (tree !! p) as [dsp|] eqn:Hlook; [|done]);
    apply IH; apply (Hnames p dsp); by rewrite lookup_delete_ne.
Qed.

(** X5. The header does not reach for [ghostty/vt.h]: as long as no
    other file of the tree names it in an inclusion directive, what the
    header preprocesses to does not depend on whether the tree holds
    [ghostty/vt.h] or on what it contains.  Two trees that agree on
    every other path give the same result, at every depth and from every
    state. *)
Theorem only_the_vendored_header_matters (tree tree' : directive_tree)
    (d : nat) (st : pp_state) :
  (forall p, p <> ghostty_vt_h -> tree !! p = tree' !! p) ->
  never_names ghostty_vt_h (delete ghostty_vt_h tree) ->
  pp_tree d tree st Ghostty_header_directives
  = pp_tree d tree' st Ghostty_header_directives.
Proof.
  intros Hsame Hnames. apply pp_tree_without_vt; [done | done |].
  apply (bool_decide_unpack _). by vm_compute.
Qed.

Lemma only_the_vendored_header_matters_witness :
  pp_tree 4 sample_wrapped (initial ∅) Ghostty_header_directives
  = pp_tree 4 (delete ghostty_vt_h sample_wrapped) (initial ∅)
      Ghostty_header_directives.
Proof.
  apply (only_the_vendored_header_matters sample_wrapped
           (delete ghostty_vt_h sample_wrapped) 4 (initial ∅)).
  - intros p Hp. by rewrite lookup_delete_ne.
  - apply map_Forall_to_list. apply (bool_decide_unpack _).
    vm_compute. exact I.
Defined.
